(** * Snowfall pile grid (src/components/Snowfall/Snowfall.js)

    A shallow embedding of the [SnowPile] class and of the surface collision
    test, with the properties of the grid store stated over it.

    Modelling conventions.
    - Grid coordinates and flat indices are JavaScript integers: [Z].
    - A [Uint8Array] / [Uint16Array] is a [list Z].  Reading outside the
      array gives [undefined] ([None]); writing outside the array is
      ignored, a typed array never grows.
    - Pixel coordinates and the draws of [Math.random()] are rationals
      ([Q]); every finite double is one.  The product
      [CONFIG.chanceToSpread * columnSnowCount] is taken exactly.
    - [Math.random()] is an oracle [nat -> Q]; the physics pass counts the
      draws it has consumed. *)

From Stdlib Require Import ZArith QArith Qround Lia.
From stdpp Require Import base tactics option list.

Local Open Scope Z_scope.

(** ** Cells and typed arrays *)

Definition Empty : Z := 0.
Definition Snow : Z := 1.
Definition Blocker : Z := 2.

(** [buffer[i]] for a typed array: [undefined] when [i] is out of range. *)
Definition rd (b : list Z) (i : Z) : option Z :=
  if i <? 0 then None else b !! Z.to_nat i.

(** [buffer[i] = v] for a typed array: ignored when [i] is out of range. *)
Definition wr (b : list Z) (i : Z) (v : Z) : list Z :=
  if i <? 0 then b else <[Z.to_nat i := v]> b.

(** Wrap-around of a [Uint16Array] element. *)
Definition wrap16 (v : Z) : Z := v mod 65536.

(** [counts[i]++] and [counts[i]--] on a [Uint16Array]; on an index out of
    range the read is [undefined], the sum is [NaN] and the store is
    ignored. *)
Definition incr (counts : list Z) (i : Z) : list Z :=
  match rd counts i with
  | Some v => wr counts i (wrap16 (v + 1))
  | None => counts
  end.

Definition decr (counts : list Z) (i : Z) : list Z :=
  match rd counts i with
  | Some v => wr counts i (wrap16 (v - 1))
  | None => counts
  end.

(** [v === k] for a value read from a typed array. *)
Definition is_val (o : option Z) (k : Z) : bool :=
  match o with
  | Some v => v =? k
  | None => false
  end.

(** ** Configuration *)

Record Config := {
  collectAtBottom : bool;
  chanceToSpread : Q;
  chanceToDecay : Q
}.

(** The values of the [CONFIG] object of the source. *)
Definition CONFIG : Config := {|
  collectAtBottom := false;
  chanceToSpread := 4 # 1000;
  chanceToDecay := 2 # 10000
|}.

(** [a < b] on numbers. *)
Definition Qlt_bool (a b : Q) : bool := negb (Qle_bool b a).

(** ** The pile *)

Record SnowPile := {
  cellWidth : Q;
  currentBuffer : list Z;
  nextBuffer : list Z;
  colCount : Z;
  rowCount : Z;
  columnCounts : list Z
}.

Definition set_current (g : SnowPile) (b : list Z) : SnowPile :=
  {| cellWidth := cellWidth g; currentBuffer := b; nextBuffer := nextBuffer g;
     colCount := colCount g; rowCount := rowCount g;
     columnCounts := columnCounts g |}.

Definition set_counts (g : SnowPile) (c : list Z) : SnowPile :=
  {| cellWidth := cellWidth g; currentBuffer := currentBuffer g;
     nextBuffer := nextBuffer g; colCount := colCount g;
     rowCount := rowCount g; columnCounts := c |}.

Definition getIndex (g : SnowPile) (col row : Z) : Z :=
  row * colCount g + col.

Definition getValue (g : SnowPile) (col row : Z) : option Z :=
  if (col <? 0) || (col >=? colCount g) || (row <? 0) || (row >=? rowCount g)
  then None
  else rd (currentBuffer g) (getIndex g col row).

Definition getValueUnsafe (g : SnowPile) (col row : Z) : option Z :=
  rd (currentBuffer g) (row * colCount g + col).

Definition setValueUnsafe (g : SnowPile) (col row v : Z) : SnowPile :=
  set_current g (wr (currentBuffer g) (row * colCount g + col) v).

Definition isInBounds (g : SnowPile) (col row : Z) : bool :=
  (0 <=? col) && (col <? colCount g) && (0 <=? row) && (row <? rowCount g).

(** ** Snow management *)

(** The [while (row >= 0)] loop of [add]; [n] is [row + 1]. *)
Fixpoint add_search (g : SnowPile) (col : Z) (n : nat) : SnowPile :=
  match n with
  | O => g
  | S m =>
      let row := Z.of_nat m in
      if is_val (getValueUnsafe g col row) 0
      then set_counts (setValueUnsafe g col row 1) (incr (columnCounts g) col)
      else add_search g col m
  end.

(** [!CONFIG.collectAtBottom && baseRow === rowCount - 1] *)
Definition bottom_guard (cfg : Config) (g : SnowPile) (baseRow : Z) : bool :=
  negb (collectAtBottom cfg) && (baseRow =? rowCount g - 1).

Definition add (cfg : Config) (g : SnowPile) (col baseRow : Z) : SnowPile :=
  if bottom_guard cfg g baseRow
  then g
  else
    let row := Z.min baseRow (rowCount g - 1) in
    add_search g col (Z.to_nat (row + 1)).

Definition isRowFull (g : SnowPile) (rowIndex : Z) : bool :=
  forallb (fun i => is_val (getValueUnsafe g i rowIndex) 1)
          (seqZ 0 (colCount g)).

Definition clearRow_cell (rowIndex : Z) (g : SnowPile) (col : Z) : SnowPile :=
  if is_val (getValueUnsafe g col rowIndex) 1
  then set_counts (setValueUnsafe g col rowIndex 0) (decr (columnCounts g) col)
  else g.

Definition clearRow (g : SnowPile) (rowIndex : Z) : SnowPile :=
  foldl (clearRow_cell rowIndex) g (seqZ 0 (colCount g)).

Definition clearAll_cell (col : Z) (g : SnowPile) (row : Z) : SnowPile :=
  if is_val (getValueUnsafe g col row) 1
  then setValueUnsafe g col row 0
  else g.

Definition clearAll_col (rows : Z) (g : SnowPile) (col : Z) : SnowPile :=
  let g' := foldl (clearAll_cell col) g (seqZ 0 rows) in
  set_counts g' (wr (columnCounts g') col 0).

Definition clearAllSnow (g : SnowPile) : SnowPile :=
  foldl (clearAll_col (rowCount g)) g (seqZ 0 (colCount g)).

(** ** Physics update *)

(** The [for (readRow = gapRow - 1; readRow >= 0; readRow--)] loop of
    [cascadeColumn]; [n] is [readRow + 1]. *)
Fixpoint cascade_loop (cols col : Z) (buffer : list Z) (writeRow : Z)
    (n : nat) : list Z :=
  match n with
  | O => buffer
  | S m =>
      let readRow := Z.of_nat m in
      let readIdx := readRow * cols + col in
      let cellValue := rd buffer readIdx in
      if is_val cellValue 1 then
        let writeIdx := writeRow * cols + col in
        cascade_loop cols col (wr (wr buffer writeIdx 1) readIdx 0)
                     (writeRow - 1) m
      else if is_val cellValue 2 then buffer
      else cascade_loop cols col buffer writeRow m
  end.

Definition cascadeColumn (cols : Z) (buffer : list Z) (col gapRow : Z)
    : list Z :=
  cascade_loop cols col buffer gapRow (Z.to_nat gapRow).

(** A store into the write buffer, with the cell of the active buffer whose
    processing issued it.  The list of these is ghost state: nothing in the
    pass reads it. *)
Record Write := {
  w_src : Z;
  w_dst : Z;
  w_val : Z
}.

(** The state threaded through the row and column loops of [update]. *)
Record Pass := {
  p_next : list Z;
  p_counts : list Z;
  p_cascade : list (Z * Z);
  p_draws : nat;
  p_log : list Write
}.

Section Physics.

Variable cfg : Config.
Variable random : nat -> Q.

(** The pile as [update] finds it: [current], [colCount] and [rowCount] are
    read from it and stay fixed during the pass. *)
Variable g : SnowPile.

Local Abbreviation cols := (colCount g).
Local Abbreviation rows := (rowCount g).
Local Abbreviation current := (currentBuffer g).

(** [next[dst] = v] while processing the cell at [src]. *)
Definition store (src dst v : Z) (s : Pass) : Pass :=
  {| p_next := wr (p_next s) dst v; p_counts := p_counts s;
     p_cascade := p_cascade s; p_draws := p_draws s;
     p_log := p_log s ++ [{| w_src := src; w_dst := dst; w_val := v |}] |}.

(** [this.columnCounts[col]--] and [this.columnCounts[col]++]. *)
Definition count_down (col : Z) (s : Pass) : Pass :=
  {| p_next := p_next s; p_counts := decr (p_counts s) col;
     p_cascade := p_cascade s; p_draws := p_draws s; p_log := p_log s |}.

Definition count_up (col : Z) (s : Pass) : Pass :=
  {| p_next := p_next s; p_counts := incr (p_counts s) col;
     p_cascade := p_cascade s; p_draws := p_draws s; p_log := p_log s |}.

Definition push_cascade (col row : Z) (s : Pass) : Pass :=
  {| p_next := p_next s; p_counts := p_counts s;
     p_cascade := p_cascade s ++ [(col, row)];
     p_draws := p_draws s; p_log := p_log s |}.

(** One call of [Math.random()]. *)
Definition draw (s : Pass) : Q * Pass :=
  (random (p_draws s),
   {| p_next := p_next s; p_counts := p_counts s; p_cascade := p_cascade s;
      p_draws := S (p_draws s); p_log := p_log s |}).

(** The direction of a lateral move: [-1], [1], or [0] for none. *)
Definition choose_dir (canMoveLeft canMoveRight : bool) (s : Pass)
    : Z * Pass :=
  if canMoveLeft && canMoveRight then
    let '(r, s) := draw s in
    (if Qlt_bool r (1 # 2) then -1 else 1, s)
  else if canMoveLeft then (-1, s)
  else if canMoveRight then (1, s)
  else (0, s).

(** Case 3 of the pass: the cell below holds snow.  An [undefined] count
    makes both comparisons false, as does the count [0] used for it here. *)
Definition spread_or_decay (row col : Z) (s : Pass) : Pass :=
  let idx := row * cols + col in
  let columnSnowCount := default 0 (rd (p_counts s) col) in
  let '(r, s) := draw s in
  let willSpread :=
    Qlt_bool r (chanceToSpread cfg * inject_Z columnSnowCount)%Q in
  if willSpread && (columnSnowCount <? rows - 3) then
    let canMoveLeft := (0 <? col) && is_val (rd current (idx - 1)) 0 in
    let canMoveRight :=
      (col <? cols - 1) && is_val (rd current (idx + 1)) 0 in
    let '(dir, s) := choose_dir canMoveLeft canMoveRight s in
    if dir =? 0 then s
    else
      let s := store idx (idx + dir) 1 s in
      let s := store idx idx 0 s in
      let s := count_down col s in
      let s := count_up (col + dir) s in
      push_cascade col row s
  else
    let '(r, s) := draw s in
    if Qlt_bool r (chanceToDecay cfg) then
      let s := store idx idx 0 s in
      let s := count_down col s in
      push_cascade col row s
    else s.

(** The body of the column loop. *)
Definition process_cell (row : Z) (s : Pass) (col : Z) : Pass :=
  let idx := row * cols + col in
  if negb (is_val (rd current idx) 1) then s
  else
    let idxBelow := (row + 1) * cols + col in
    let cellBelow := rd current idxBelow in
    if is_val cellBelow 0 then
      store idx idx 0 (store idx idxBelow 1 s)
    else if is_val cellBelow 2 then s
    else spread_or_decay row col s.

(** The body of the row loop. *)
Definition process_row (s : Pass) (row : Z) : Pass :=
  if isRowFull g row then s
  else foldl (process_cell row) s (seqZ 0 cols).

(** Steps 1 and 2: [next] starts as a copy of [current] (both buffers are
    allocated with the same length and only ever swapped), then the rows
    [rowCount - 2] down to [0] are processed. *)
Definition physics : Pass :=
  foldl process_row
        {| p_next := current; p_counts := columnCounts g; p_cascade := [];
           p_draws := O; p_log := [] |}
        (reverse (seqZ 0 (rows - 1))).

(** Step 3: one cascade for each recorded gap, in the order recorded. *)
Definition cascades (next : list Z) (gaps : list (Z * Z)) : list Z :=
  foldl (fun b gap => cascadeColumn cols b (fst gap) (snd gap)) next gaps.

(** The body of the loop that clears the bottom row. *)
Definition drain_cell (bottomRowStart : Z) (s : list Z * list Z) (col : Z)
    : list Z * list Z :=
  if is_val (rd (fst s) (bottomRowStart + col)) 1
  then (wr (fst s) (bottomRowStart + col) 0, decr (snd s) col)
  else s.

Definition drain (s : list Z * list Z) : list Z * list Z :=
  foldl (drain_cell ((rows - 1) * cols)) s (seqZ 0 cols).

(** The write buffer and the counts after the cascades. *)
Definition settled : list Z * list Z :=
  (cascades (p_next physics) (p_cascade physics), p_counts physics).

Definition update : SnowPile :=
  let s := if collectAtBottom cfg then settled else drain settled in
  {| cellWidth := cellWidth g; currentBuffer := fst s;
     nextBuffer := current; colCount := cols; rowCount := rows;
     columnCounts := snd s |}.

End Physics.

(** ** Construction *)

(** An entry of [surfacePositions]. *)
Record Rect := {
  top : Q;
  left : Q;
  right : Q;
  bottom : Q;
  width : Q;
  height : Q
}.

(** The test of [resize] on the centre of a cell: edges included. *)
Definition covers (x y : Q) (pos : Rect) : bool :=
  Qle_bool (left pos) x && Qle_bool x (right pos) &&
  Qle_bool (top pos) y && Qle_bool y (bottom pos).

Definition mark_cell (surfacePositions : list Rect) (col : Z) (g : SnowPile)
    (row : Z) : SnowPile :=
  let x := (inject_Z col * cellWidth g + cellWidth g / 2)%Q in
  let y := (inject_Z row * cellWidth g + cellWidth g / 2)%Q in
  if existsb (covers x y) surfacePositions
  then setValueUnsafe g col row 2
  else g.

Definition resize (cellSize : Q) (surfacePositions : list Rect)
    (w h : Q) : SnowPile :=
  let cols := Qceiling (w / cellSize) in
  let rows := Qceiling (h / cellSize) in
  let totalCells := Z.to_nat (cols * rows) in
  let g := {| cellWidth := cellSize;
              currentBuffer := replicate totalCells 0;
              nextBuffer := replicate totalCells 0;
              colCount := cols; rowCount := rows;
              columnCounts := replicate (Z.to_nat cols) 0 |} in
  foldl (fun g col => foldl (mark_cell surfacePositions col) g (seqZ 0 rows))
        g (seqZ 0 cols).

(** ** Collision with a surface *)

Definition inside (x y : Q) (pos : Rect) : bool :=
  Qlt_bool x (right pos) && Qlt_bool (left pos) x &&
  Qlt_bool y (bottom pos) && Qlt_bool (top pos) y.

Definition nodeCollideWithElement (surfacePositions : list Rect) (x y : Q)
    : bool :=
  existsb (inside x y) surfacePositions.

(** ** Further operations of the pile *)

(** The conversion of a stored value to an element of a [Uint8Array]. *)
Definition wrap8 (v : Z) : Z := v mod 256.

(** Bounds-checked write; the store converts the value to a byte. *)
Definition setValue (g : SnowPile) (col row value : Z) : SnowPile :=
  if (col <? 0) || (col >=? colCount g) || (row <? 0) || (row >=? rowCount g)
  then g
  else set_current g (wr (currentBuffer g) (getIndex g col row) (wrap8 value)).

(** [getCoords]: pixel coordinates to grid coordinates, clamped.  The
    quotient is that of a non-zero [cellWidth]. *)
Definition getCoords (g : SnowPile) (x y : Q) : Z * Z :=
  let xCol := Qfloor (x / cellWidth g) in
  let yRow := Qfloor (y / cellWidth g) in
  let col := Z.max 0 (Z.min xCol (colCount g - 1)) in
  let row := Z.max 0 (Z.min yRow (rowCount g - 1)) in
  (col, row).

Definition isCellFull (g : SnowPile) (col row : Z) : bool :=
  if negb (isInBounds g col row) then false
  else
    let hasSnow := is_val (getValueUnsafe g col row) 1 in
    let aboveEmpty :=
      (row =? 0) || negb (is_val (getValueUnsafe g col (row - 1)) 1) in
    hasSnow && aboveEmpty.

Definition getColumnCount (g : SnowPile) (col : Z) : option Z :=
  rd (columnCounts g) col.

(** The centre of the cells of column (or row) [k]. *)
Definition cell_centre (cellSize : Q) (k : Z) : Q :=
  (inject_Z k * cellSize + cellSize / 2)%Q.

(** [Math.min] on numbers. *)
Definition num_min (a b : Q) : Q := if Qle_bool a b then a else b.

(** The inner loop of [calculateSurfaceMap]: the least of [canvas.height]
    and the tops of the surfaces whose span holds [colX]. *)
Definition column_top (canvasHeight colX : Q) (surfacePositions : list Rect)
    : Q :=
  foldl (fun minY surface =>
           if Qle_bool (left surface) colX && Qle_bool colX (right surface)
           then num_min minY (top surface)
           else minY)
        canvasHeight surfacePositions.

(** [calculateSurfaceMap]: the new content of [surfaceMap]. *)
Definition calculateSurfaceMap (cellSize canvasWidth canvasHeight : Q)
    (surfacePositions : list Rect) : list Q :=
  map (fun col => column_top canvasHeight (cell_centre cellSize col)
                             surfacePositions)
      (seqZ 0 (Qceiling (canvasWidth / cellSize))).

(** [nodeCollideWithSnowPile]; [hasPile] is [CONFIG.hasPile]. *)
Definition nodeCollideWithSnowPile (hasPile : bool) (g : SnowPile) (x y : Q)
    : bool :=
  if negb hasPile then false
  else isCellFull g (getCoords g x y).1 (getCoords g x y).2.

(** ** Flakes *)

Module Snowflake.

Record t := {
  x : Q;
  y : Q;
  angle : Q;
  velocity : Q;
  radius : Q;
  hit : bool;
  amplitude : Q;
  frequency : Q;
  phase : Q;
  baseX : Q
}.

(** [reset]; [r] is the draw of [Math.random()] and [canvasWidth] is
    [canvas.width]. *)
Definition reset (canvasWidth r : Q) (f : t) : t :=
  {| x := r * canvasWidth; y := -10; angle := angle f;
     velocity := velocity f; radius := radius f; hit := false;
     amplitude := amplitude f; frequency := frequency f; phase := phase f;
     baseX := r * canvasWidth |}.

(** The motion at the head of [update]; [sin] is [Math.sin]. *)
Definition move (sin : Q → Q) (f : t) : t :=
  let y' := (y f + sin (angle f) * velocity f)%Q in
  {| x := (baseX f + sin (y' * frequency f + phase f) * amplitude f)%Q;
     y := y'; angle := angle f; velocity := velocity f; radius := radius f;
     hit := hit f; amplitude := amplitude f; frequency := frequency f;
     phase := phase f; baseX := baseX f |}.

(** [update], on the pile and the flake.  [hasPile] is [CONFIG.hasPile],
    [surfaceMap] the array of that name, [canvasWidth] and [canvasHeight]
    are [canvas.width] and [canvas.height].  When [surfaceMap[col]] is
    [undefined] the row computed from it is [NaN], which makes [add] return
    without a store. *)
Definition update (cfg : Config) (hasPile : bool) (sin : Q → Q)
    (random : nat → Q) (surfacePositions : list Rect) (surfaceMap : list Q)
    (canvasWidth canvasHeight : Q) (pile : SnowPile) (f : t)
    : SnowPile * t :=
  let f := move sin f in
  let col := (getCoords pile (x f) (y f)).1 in
  if nodeCollideWithSnowPile hasPile pile (x f) (y f) ||
     nodeCollideWithElement surfacePositions (x f) (y f)
  then
    if hasPile then
      let offset := Qfloor (random 0%nat * 3) - 1 in
      let targetCol := Z.max 0 (Z.min (col + offset) (colCount pile - 1)) in
      let pile' :=
        match surfaceMap !! Z.to_nat col with
        | Some surfaceY =>
            add cfg pile targetCol (getCoords pile (x f) surfaceY).2
        | None => pile
        end in
      (pile', reset canvasWidth (random 1%nat) f)
    else (pile, reset canvasWidth (random 0%nat) f)
  else if Qlt_bool canvasHeight (y f) then
    (if hasPile
     then add cfg pile col (getCoords pile (x f) canvasHeight).2
     else pile,
     reset canvasWidth (random 0%nat) f)
  else
    (pile,
     {| x := x f; y := y f; angle := angle f; velocity := velocity f;
        radius := radius f; hit := false; amplitude := amplitude f;
        frequency := frequency f; phase := phase f; baseX := baseX f |}).

End Snowflake.

(** ** Rendering *)

Module Render.

(** The values [ctx.fillStyle] takes. *)
Inductive FillStyle := white | green | red | blue.

(** A call [ctx.fillRect(x, y, w, h)] with the [fillStyle] in force. *)
Record FillRect := {
  style : FillStyle;
  px : Q;
  py : Q;
  pw : Q;
  ph : Q
}.

(** The [while] loop of [drawChunk]: the first index from [newIndex] on
    that is [colCount] or whose cell is not [type]; [n] bounds the number
    of iterations, and [colCount - colIndex] of them are enough. *)
Fixpoint chunk_end (g : SnowPile) (rowIndex type : Z) (newIndex : Z)
    (n : nat) : Z :=
  match n with
  | O => newIndex
  | S m =>
      if (newIndex <? colCount g) &&
         is_val (getValueUnsafe g newIndex rowIndex) type
      then chunk_end g rowIndex type (newIndex + 1) m
      else newIndex
  end.

(** [drawChunk]: the rectangle filled and the index returned; [debug] is
    [CONFIG.debug]. *)
Definition drawChunk (debug : bool) (g : SnowPile) (rowIndex colIndex type : Z)
    : FillRect * Z :=
  let newIndex :=
    chunk_end g rowIndex type colIndex (Z.to_nat (colCount g - colIndex)) in
  let fillStyle :=
    if debug then (if colIndex mod 2 =? 0 then green else red) else white in
  ({| style := fillStyle;
      px := inject_Z colIndex * cellWidth g;
      py := inject_Z rowIndex * cellWidth g;
      pw := inject_Z (newIndex - colIndex) * cellWidth g;
      ph := cellWidth g |},
   newIndex).

Definition drawRow (g : SnowPile) (rowIndex : Z) : FillRect :=
  {| style := white; px := 0; py := inject_Z rowIndex * cellWidth g;
     pw := inject_Z (colCount g) * cellWidth g; ph := cellWidth g |}.

(** The column loop of [draw] from [colIndex] on; [n] bounds the number of
    iterations, and [colCount - colIndex] of them are enough.  The index
    [drawChunk] returns, less one, is incremented by the loop. *)
Fixpoint draw_cols (debug : bool) (g : SnowPile) (rowIndex colIndex : Z)
    (n : nat) : list FillRect :=
  match n with
  | O => []
  | S m =>
      if colIndex <? colCount g then
        let cellValue := getValueUnsafe g colIndex rowIndex in
        if is_val cellValue 1 then
          let chunk := drawChunk debug g rowIndex colIndex 1 in
          chunk.1 :: draw_cols debug g rowIndex (chunk.2 - 1 + 1) m
        else if debug && is_val cellValue 2 then
          let chunk := drawChunk debug g rowIndex colIndex 2 in
          chunk.1 :: draw_cols debug g rowIndex (chunk.2 - 1 + 1) m
        else draw_cols debug g rowIndex (colIndex + 1) m
      else []
  end.

(** The body of the row loop of [draw]. *)
Definition draw_row (debug : bool) (g : SnowPile) (rowIndex : Z)
    : list FillRect :=
  if isRowFull g rowIndex then [drawRow g rowIndex]
  else draw_cols debug g rowIndex 0 (Z.to_nat (colCount g)).

(** [draw]: the rectangles filled, in order. *)
Definition draw (debug : bool) (g : SnowPile) : list FillRect :=
  flat_map (draw_row debug g) (seqZ 0 (rowCount g)).





End Render.

(** ** Sequences of calls *)

Inductive Call :=
| CallAdd (col baseRow : Z)
| CallStep (random : nat -> Q)
| CallClearRow (rowIndex : Z)
| CallClearAllSnow.

Definition call (cfg : Config) (g : SnowPile) (c : Call) : SnowPile :=
  match c with
  | CallAdd col baseRow => add cfg g col baseRow
  | CallStep random => update cfg random g
  | CallClearRow rowIndex => clearRow g rowIndex
  | CallClearAllSnow => clearAllSnow g
  end.

Definition calls (cfg : Config) (g : SnowPile) (cs : list Call) : SnowPile :=
  foldl (call cfg) g cs.

(** ** Observations used in the statements *)

(** The rows of column [col] whose cell in [b] holds [v], top to bottom. *)
Definition rows_with (cols rows : Z) (b : list Z) (col v : Z) : list Z :=
  filter (fun row => is_val (rd b (row * cols + col)) v = true) (seqZ 0 rows).

(** The number of [Snow] cells in column [col] of the active buffer. *)
Definition snowCount (g : SnowPile) (col : Z) : Z :=
  Z.of_nat (length (rows_with (colCount g) (rowCount g) (currentBuffer g)
                              col Snow)).

(** [columnCounts[c]] is the number of [Snow] cells of column [c], for every
    column of the grid. *)
Definition counts_exact (g : SnowPile) : bool :=
  forallb (λ c, is_val (rd (columnCounts g) c) (snowCount g c))
          (seqZ 0 (colCount g)).

(** The same, as a proposition. *)
Definition counts_ok (g : SnowPile) : Prop :=
  ∀ c, 0 ≤ c < colCount g → rd (columnCounts g) c = Some (snowCount g c).

(** No two stores of the log with the same destination come from different
    cells of the active buffer. *)
Definition single_source (log : list Write) : bool :=
  forallb (λ w1, forallb (λ w2,
             negb ((w_dst w1 =? w_dst w2) && negb (w_src w1 =? w_src w2)))
           log) log.

(** The write buffer after the stores of a log, in order. *)
Definition replay (b : list Z) (log : list Write) : list Z :=
  foldl (λ b w, wr b (w_dst w) (w_val w)) b log.

(** ** Relations between buffers and between piles *)

(** A pile as [resize] allocates it: two buffers of [colCount * rowCount]
    cells and one count for each column.  The bound on [rowCount] keeps the
    count of a column within a [Uint16Array] element. *)
Definition wf (g : SnowPile) : Prop :=
  0 ≤ colCount g ∧ 0 ≤ rowCount g < 65536 ∧
  length (currentBuffer g) = Z.to_nat (colCount g * rowCount g) ∧
  length (nextBuffer g) = length (currentBuffer g) ∧
  length (columnCounts g) = Z.to_nat (colCount g).

(** [b'] is [b] with some [Snow] cells turned [Empty]. *)
Definition melted (b b' : list Z) : Prop :=
  ∀ i, rd b' i = rd b i ∨ (rd b i = Some Snow ∧ rd b' i = Some Empty).

(** The fields that clearing a cell leaves alone. *)
Definition same_frame (g g' : SnowPile) : Prop :=
  cellWidth g' = cellWidth g ∧ nextBuffer g' = nextBuffer g ∧
  colCount g' = colCount g ∧ rowCount g' = rowCount g.

(** What the loops of [clearAllSnow] may change: [Snow] cells of the active
    buffer and the values, not the number, of the counts. *)
Definition cleared (g g' : SnowPile) : Prop :=
  same_frame g g' ∧
  length (columnCounts g') = length (columnCounts g) ∧
  melted (currentBuffer g) (currentBuffer g').

(** [b] and [b'] hold [Blocker] at the same indices. *)
Definition same_blockers (b b' : list Z) : Prop :=
  ∀ i, rd b i = Some Blocker ↔ rd b' i = Some Blocker.

(** The invariant of the physics pass behind the blocker property: the
    write buffer has the blockers of the active buffer, and every recorded
    gap is a cell that held [Snow] in the active buffer. *)
Definition pass_inv (g : SnowPile) (s : Pass) : Prop :=
  same_blockers (currentBuffer g) (p_next s) ∧
  ∀ gap, gap ∈ p_cascade s →
    rd (currentBuffer g) (snd gap * colCount g + fst gap) = Some Snow.

(** A grid of one column and two rows with no surface. *)
Definition tiny : SnowPile := resize 1 [] 1 2.

(** The surface of [shelf10] and the surface map of its canvas. *)
Definition shelf : Rect :=
  {| top := 8; left := 0; right := 3; bottom := 9; width := 3; height := 1 |}.

Definition shelf_map : list Q := calculateSurfaceMap 1 10 10 [shelf].

(** A flake at (0.5, 2.5) that falls 4 pixels at each update and does not
    drift, with the value 1 for every [Math.sin]. *)
Definition flake0 : Snowflake.t :=
  {| Snowflake.x := 1 # 2; Snowflake.y := 5 # 2; Snowflake.angle := 0;
     Snowflake.velocity := 4; Snowflake.radius := 1; Snowflake.hit := false;
     Snowflake.amplitude := 0; Snowflake.frequency := 0;
     Snowflake.phase := 0; Snowflake.baseX := 1 # 2 |}.

Definition unit_sin : Q → Q := λ _, 1%Q.

(** The number of [Snow] cells of a buffer. *)
Definition snowTotal (b : list Z) : nat :=
  length (filter (λ v, v = Snow) b).

(** The cells the main pass of [update] has gone through: the cells of
    the rows [done_rows], and in row [row] those of the columns
    [done_cols]. *)
Definition processed (cols : Z) (done_rows : list Z) (row : Z)
    (done_cols : list Z) (i : Z) : Prop :=
  (∃ r c, r ∈ done_rows ∧ 0 ≤ c < cols ∧ i = r * cols + c) ∨
  (∃ c, c ∈ done_cols ∧ i = row * cols + c).

(** The invariant of the main pass behind the conservation of snow: a
    [Snow] cell of the active buffer the pass has not gone through yet is
    still [Snow] in the write buffer, and the write buffer holds no more
    [Snow] than the active buffer. *)
Definition no_new_snow (current : list Z) (proc : Z → Prop)
    (next : list Z) : Prop :=
  (∀ i, rd current i = Some Snow → ¬ proc i → rd next i = Some Snow) ∧
  (snowTotal next ≤ snowTotal current)%nat.

(** The number of [add] calls in a sequence of calls. *)
Definition is_add (c : Call) : bool :=
  match c with CallAdd _ _ => true | _ => false end.

Definition adds (cs : list Call) : nat :=
  length (filter (λ c, is_add c = true) cs).

(** ** Scenarios *)

(** Draws of [Math.random()].  Under [gust] every draw is 0.001: a cell
    resting on snow spreads when its column is eligible and a side is free,
    to the left when both are.  Under [calm] every draw is 0.5: nothing
    spreads in a column of fewer than 125 cells and nothing decays. *)
Definition gust : nat → Q := λ _, (1 # 1000)%Q.
Definition calm : nat → Q := λ _, (1 # 2)%Q.

(** Draws 1 and 5 are 0.0001, the others 0.5.  In the update of a stack
    the draws come in pairs, spread then decay, from the lowest resting cell
    up: the first and the third of these cells decay. *)
Definition thaw : nat → Q :=
  λ k, if (k =? 1)%nat || (k =? 5)%nat then (1 # 10000)%Q else (1 # 2)%Q.

(** A 10 by 10 grid with no surface: every cell [Empty], every count 0. *)
Definition empty10 : SnowPile := resize 1 [] 10 10.

(** One flake resting at (5, 8). *)
Definition one_flake10 : SnowPile := add CONFIG empty10 5 8.

(** Two flakes stacked at (0, 7) and (0, 8), one flake at (1, 6). *)
Definition merge10 : SnowPile :=
  calls CONFIG empty10 [CallAdd 0 8; CallAdd 0 8; CallAdd 1 6].

(** Eight flakes stacked in column 0, rows 1 to 8. *)
Definition stack10 : SnowPile :=
  calls CONFIG empty10 (replicate 8 (CallAdd 0 8)).

(** A surface under columns 0 to 2: the cells of row 8 in these columns
    are [Blocker]s, and 8 is the row a flake landing there is added at. *)
Definition shelf10 : SnowPile :=
  resize 1 [{| top := 8; left := 0; right := 3; bottom := 9;
               width := 3; height := 1 |}] 10 10.

(** Two flakes stacked on the shelf in column 0 and two in column 2, at
    rows 6 and 7; column 1 is free. *)
Definition twin10 : SnowPile :=
  calls CONFIG shelf10 [CallAdd 0 8; CallAdd 0 8; CallAdd 2 8; CallAdd 2 8].

(** A surface one cell wide under column 5: the centre of cell (5, 9) is
    covered, so that cell is a [Blocker]. *)
Definition ledge10 : SnowPile :=
  resize 1 [{| top := 9; left := 5; right := 6; bottom := 10;
               width := 1; height := 1 |}] 10 10.

(** [ledge10] after three flakes have landed. *)
Definition snowy10 : SnowPile :=
  calls CONFIG ledge10 [CallAdd 5 8; CallAdd 5 8; CallAdd 0 3].

(** Flakes landing on the ledge, two updates with different draws, and both
    ways of clearing. *)
Definition storm : list Call :=
  [CallAdd 5 8; CallAdd 5 8; CallStep gust; CallClearRow 8;
   CallAdd 4 8; CallStep calm; CallClearAllSnow].

(** One column of 10 rows with [Snow] at rows 2, 3 and 5. *)
Definition column_2_3_5 : list Z := [0; 0; 1; 1; 0; 1; 0; 0; 0; 0].

(** Column 5 of a 10 by 10 grid with [Snow] at rows 2, 3 and 5. *)
Definition grid_2_3_5 : list Z :=
  wr (wr (wr (replicate 100 Empty) 25 Snow) 35 Snow) 55 Snow.


(** A flake at (5.5, 8.5) that falls 4 pixels at each update: its next
    position is below a canvas 10 pixels high. *)
Definition low_flake : Snowflake.t :=
  {| Snowflake.x := 11 # 2; Snowflake.y := 17 # 2; Snowflake.angle := 0;
     Snowflake.velocity := 4; Snowflake.radius := 1; Snowflake.hit := false;
     Snowflake.amplitude := 0; Snowflake.frequency := 0;
     Snowflake.phase := 0; Snowflake.baseX := 11 # 2 |}.

(** * Properties *)

(** ** Typed arrays *)

Lemma rd_wr (b : list Z) (i j v : Z) :
  rd (wr b i v) j =
  if decide (i = j) then (match rd b i with Some _ => Some v | None => None end)
  else rd b j.
Proof.
  unfold rd, wr. case_decide as Hij.
  - subst j. destruct (i <? 0) eqn:Hi; [done|].
    destruct (b !! Z.to_nat i) eqn:Hb.
    + apply list_lookup_insert_eq. by eapply lookup_lt_Some.
    + rewrite list_insert_ge; [done|]. by apply lookup_ge_None.
  - destruct (i <? 0) eqn:Hi; [done|].
    destruct (j <? 0) eqn:Hj; [done|].
    apply list_lookup_insert_ne. lia.
Qed.

Lemma rd_wr_ne (b : list Z) (i j v : Z) : i ≠ j → rd (wr b i v) j = rd b j.
Proof. intros. rewrite rd_wr. by case_decide. Qed.

Lemma rd_wr_eq (b : list Z) (i v w : Z) :
  rd b i = Some w → rd (wr b i v) i = Some v.
Proof. intros H. rewrite rd_wr, H. by case_decide. Qed.

Lemma length_wr (b : list Z) (i v : Z) : length (wr b i v) = length b.
Proof. unfold wr. destruct (i <? 0); [done|]. apply length_insert. Qed.

Lemma wr_id (b : list Z) (i v : Z) : rd b i = Some v → wr b i v = b.
Proof.
  unfold rd, wr. destruct (i <? 0); [done|]. apply list_insert_id.
Qed.

Lemma rd_Some_range (b : list Z) (i v : Z) :
  rd b i = Some v → 0 ≤ i < Z.of_nat (length b).
Proof.
  unfold rd. destruct (i <? 0) eqn:Hi; [done|].
  intros H%lookup_lt_Some. lia.
Qed.

Lemma rd_in_range (b : list Z) (i : Z) :
  0 ≤ i < Z.of_nat (length b) → ∃ v, rd b i = Some v ∧ b !! Z.to_nat i = Some v.
Proof.
  intros Hi. unfold rd. destruct (i <? 0) eqn:Hn; [lia|].
  destruct (lookup_lt_is_Some_2 b (Z.to_nat i)) as [v Hv]; [lia|]. eauto.
Qed.

Lemma is_val_true (o : option Z) (k : Z) : is_val o k = true ↔ o = Some k.
Proof.
  destruct o as [v|]; simpl; [|done].
  rewrite Z.eqb_eq. split; [by intros ->|by intros [= ->]].
Qed.

Lemma is_val_false (o : option Z) (k : Z) : is_val o k = false ↔ o ≠ Some k.
Proof.
  rewrite <- is_val_true. destruct (is_val o k); split; congruence.
Qed.

Lemma Qlt_bool_iff (a b : Q) : Qlt_bool a b = true ↔ (a < b)%Q.
Proof.
  unfold Qlt_bool. rewrite negb_true_iff.
  destruct (Qle_bool b a) eqn:H.
  - apply Qle_bool_iff in H. split; [done|]. intros Hlt.
    by apply Qlt_not_le in Hlt.
  - split; [|done]. intros _. apply Qnot_le_lt. intros Hle.
    apply Qle_bool_iff in Hle. congruence.
Qed.

(** ** Bounds-checked read *)

Lemma getValue_outside (g : SnowPile) (col row : Z) :
  ¬ (0 ≤ col < colCount g ∧ 0 ≤ row < rowCount g) →
  getValue g col row = None.
Proof.
  intros Hout. unfold getValue.
  destruct (col <? 0) eqn:H1; [done|].
  destruct (col >=? colCount g) eqn:H2; [done|].
  destruct (row <? 0) eqn:H3; [done|].
  destruct (row >=? rowCount g) eqn:H4; [done|].
  exfalso. apply Hout. lia.
Qed.

Lemma getValue_inside (g : SnowPile) (col row : Z) :
  0 ≤ col < colCount g → 0 ≤ row < rowCount g →
  getValue g col row = rd (currentBuffer g) (row * colCount g + col).
Proof.
  intros Hc Hr. unfold getValue, getIndex.
  destruct (col <? 0) eqn:H1; [lia|].
  destruct (col >=? colCount g) eqn:H2; [lia|].
  destruct (row <? 0) eqn:H3; [lia|].
  destruct (row >=? rowCount g) eqn:H4; [lia|].
  done.
Qed.

(** C8. [getValue] returns [undefined] for every coordinate outside
    [0 <= col < colCount], [0 <= row < rowCount], and the cell of the active
    buffer at [row * colCount + col] for every coordinate inside; on a
    buffer of [colCount * rowCount] cells that read is a cell value. *)
Theorem getValue_bounds (g : SnowPile) (col row : Z) :
  (¬ (0 ≤ col < colCount g ∧ 0 ≤ row < rowCount g) →
   getValue g col row = None) ∧
  (0 ≤ col < colCount g ∧ 0 ≤ row < rowCount g →
   getValue g col row = rd (currentBuffer g) (row * colCount g + col) ∧
   (length (currentBuffer g) = Z.to_nat (colCount g * rowCount g) →
    ∃ v, getValue g col row = Some v ∧
         currentBuffer g !! Z.to_nat (row * colCount g + col) = Some v)).
Proof.
  split; [apply getValue_outside|].
  intros [Hc Hr]. rewrite (getValue_inside g col row Hc Hr).
  split; [done|]. intros Hlen.
  apply rd_in_range. rewrite Hlen. nia.
Qed.

Lemma getValue_bounds_witness :
  getValue empty10 10 3 = None ∧ getValue empty10 5 (-1) = None ∧
  getValue empty10 5 8 = Some Empty.
Proof.
  destruct (getValue_bounds empty10 10 3) as [Ha _].
  destruct (getValue_bounds empty10 5 (-1)) as [Hb _].
  destruct (getValue_bounds empty10 5 8) as [_ Hc].
  change (colCount empty10) with 10 in *.
  change (rowCount empty10) with 10 in *.
  split; [apply Ha; lia|].
  split; [apply Hb; lia|].
  destruct Hc as [Hc _]; [lia|].
  rewrite Hc. reflexivity.
Defined.

(** ** Surface collision *)

Lemma inside_iff (x y : Q) (pos : Rect) :
  inside x y pos = true ↔
  (left pos < x ∧ x < right pos ∧ top pos < y ∧ y < bottom pos)%Q.
Proof.
  unfold inside. rewrite !andb_true_iff, !Qlt_bool_iff. tauto.
Qed.

(** C9. [nodeCollideWithElement] is true exactly when the point lies
    strictly inside one of the surface rectangles; a point on the left,
    right, top or bottom edge of a rectangle does not hit that rectangle. *)
Theorem nodeCollideWithElement_strict (surfacePositions : list Rect)
    (x y : Q) :
  (nodeCollideWithElement surfacePositions x y = true ↔
   ∃ pos, pos ∈ surfacePositions ∧
          (left pos < x ∧ x < right pos ∧ top pos < y ∧ y < bottom pos)%Q) ∧
  (∀ pos, (x == left pos ∨ x == right pos ∨ y == top pos ∨ y == bottom pos)%Q
          → inside x y pos = false) ∧
  (∀ pos, (x == left pos ∨ x == right pos ∨ y == top pos ∨ y == bottom pos)%Q
          → nodeCollideWithElement [pos] x y = false).
Proof.
  assert (Hedge : ∀ pos,
    (x == left pos ∨ x == right pos ∨ y == top pos ∨ y == bottom pos)%Q →
    inside x y pos = false).
  { intros pos Hedge. apply not_true_is_false. rewrite inside_iff.
    intros (H1 & H2 & H3 & H4).
    destruct Hedge as [E|[E|[E|E]]]; rewrite E in *;
      eapply Qlt_irrefl; eassumption. }
  split; [|split; [done|]].
  - unfold nodeCollideWithElement. rewrite existsb_exists. split.
    + intros (pos & Hin & Hpos). exists pos. split.
      * by apply list_elem_of_In.
      * by apply inside_iff.
    + intros (pos & Hin & Hpos). exists pos. split.
      * by apply list_elem_of_In.
      * by apply inside_iff.
  - intros pos Hpos. unfold nodeCollideWithElement. simpl.
    rewrite (Hedge pos Hpos). reflexivity.
Qed.

Lemma nodeCollideWithElement_strict_witness :
  nodeCollideWithElement
    [{| top := 2; left := 1; right := 4; bottom := 6;
        width := 3; height := 4 |}] 1 3 = false ∧
  nodeCollideWithElement
    [{| top := 2; left := 1; right := 4; bottom := 6;
        width := 3; height := 4 |}] 2 3 = true.
Proof.
  pose (pos := {| top := 2; left := 1; right := 4; bottom := 6;
                  width := 3; height := 4 |}).
  split.
  - destruct (nodeCollideWithElement_strict [pos] 1 3) as (_ & _ & H).
    apply (H pos). left. reflexivity.
  - destruct (nodeCollideWithElement_strict [pos] 2 3) as (H & _ & _).
    apply H. exists pos. split; [apply list_elem_of_here|].
    vm_compute. repeat split; reflexivity.
Defined.

(** ** Adding snow *)

Lemma add_search_hit (g : SnowPile) (col : Z) (m : nat) :
  getValueUnsafe g col (Z.of_nat m) = Some Empty →
  add_search g col (S m) =
  set_counts (setValueUnsafe g col (Z.of_nat m) Snow)
             (incr (columnCounts g) col).
Proof. intros H. simpl. rewrite H. reflexivity. Qed.

(** C5. On the 10 by 10 all-[Empty] grid, with bottom accumulation
    disabled, [add(5, 9)] changes nothing, and [add(5, 8)] writes [Snow] at
    (5, 8), leaves every other cell as it was and leaves [columnCounts[5]]
    at 1 and the other counts at 0. *)
Theorem add_scenario_10x10 (cfg : Config) :
  collectAtBottom cfg = false →
  currentBuffer empty10 = replicate 100 Empty ∧
  columnCounts empty10 = replicate 10 0 ∧
  add cfg empty10 5 9 = empty10 ∧
  currentBuffer (add cfg empty10 5 8) = <[85%nat := Snow]> (replicate 100 Empty) ∧
  getValue (add cfg empty10 5 8) 5 8 = Some Snow ∧
  columnCounts (add cfg empty10 5 8) = <[5%nat := 1]> (replicate 10 0) ∧
  snowCount (add cfg empty10 5 8) 5 = 1.
Proof.
  intros Hcfg. unfold add, bottom_guard. rewrite Hcfg.
  repeat split; reflexivity.
Qed.

Lemma add_scenario_10x10_witness :
  add CONFIG empty10 5 9 = empty10 ∧
  getValue (add CONFIG empty10 5 8) 5 8 = Some Snow.
Proof.
  destruct (add_scenario_10x10 CONFIG) as (_ & _ & H1 & _ & H2 & _).
  - reflexivity.
  - split; [exact H1 | exact H2].
Defined.

(** C10. With bottom accumulation disabled the guard of [add] is true
    only for [baseRow = rowCount - 1].  For a larger [baseRow] the search
    starts at the last row, and when that cell is [Empty] it becomes [Snow]
    and the count of the column is incremented. *)
Theorem add_beyond_last_row (cfg : Config) (g : SnowPile) (col baseRow : Z) :
  collectAtBottom cfg = false →
  1 ≤ rowCount g →
  (bottom_guard cfg g baseRow = true ↔ baseRow = rowCount g - 1) ∧
  (rowCount g - 1 < baseRow →
   getValueUnsafe g col (rowCount g - 1) = Some Empty →
   add cfg g col baseRow =
   set_counts (setValueUnsafe g col (rowCount g - 1) Snow)
              (incr (columnCounts g) col)).
Proof.
  intros Hcfg Hrows. unfold add, bottom_guard. rewrite Hcfg. simpl. split.
  - apply Z.eqb_eq.
  - intros Hbase Hcell.
    destruct (baseRow =? rowCount g - 1) eqn:E; [lia|].
    rewrite Z.min_r by lia.
    replace (Z.to_nat (rowCount g - 1 + 1))
      with (S (Z.to_nat (rowCount g - 1))) by lia.
    rewrite <- (Z2Nat.id (rowCount g - 1)) in Hcell by lia.
    rewrite (add_search_hit _ _ _ Hcell).
    rewrite Z2Nat.id by lia. reflexivity.
Qed.

Lemma add_beyond_last_row_witness :
  getValue (add CONFIG empty10 5 10) 5 9 = Some Snow ∧
  rd (columnCounts (add CONFIG empty10 5 10)) 5 = Some 1.
Proof.
  destruct (add_beyond_last_row CONFIG empty10 5 10) as [_ H].
  - reflexivity.
  - change (rowCount empty10) with 10. lia.
  - rewrite H.
    + split; reflexivity.
    + change (rowCount empty10) with 10. lia.
    + reflexivity.
Defined.

(** ** Cascade *)

(** C4, as the code has it.  In a 10-row column with [Snow] at rows 2, 3
    and 5, once the decay has emptied row 3 the cascade for the gap at row 3
    moves the [Snow] of row 2 down into row 3 and stops at the top of the
    column: [Snow] is at rows 3 and 5, the cell at row 5 below the gap is
    not touched, and rows 2 and 4 are [Empty]. *)
Theorem cascade_2_3_5 :
  rows_with 1 10 column_2_3_5 0 Snow = [2; 3; 5] ∧
  rows_with 1 10 (cascadeColumn 1 (wr column_2_3_5 3 Empty) 0 3) 0 Snow
  = [3; 5] ∧
  rows_with 10 10 grid_2_3_5 5 Snow = [2; 3; 5] ∧
  rows_with 10 10 (cascadeColumn 10 (wr grid_2_3_5 35 Empty) 5 3) 5 Snow
  = [3; 5].
Proof. repeat split; reflexivity. Qed.

(** C4, as the claim states it, fails: the column does not end with
    [Snow] at rows 2 and 4. *)
Lemma cascade_2_3_5_not_2_4 :
  rows_with 1 10 (cascadeColumn 1 (wr column_2_3_5 3 Empty) 0 3) 0 Snow
  ≠ [2; 4].
Proof. vm_compute. discriminate. Qed.

(** ** Loops as folds *)

Lemma foldl_invariant {A B} (P : A → Prop) (f : A → B → A) (l : list B)
    (a : A) :
  P a → (∀ a b, b ∈ l → P a → P (f a b)) → P (foldl f a l).
Proof.
  revert a. induction l as [|b l IH]; intros a Ha Hstep; simpl; [done|].
  apply IH.
  - apply Hstep; [apply list_elem_of_here | done].
  - intros a' b' Hb'. apply Hstep. by apply list_elem_of_further.
Qed.

(** What the body establishes for its own element, and no later iteration
    undoes, holds for every element at the end of the loop; [P] is an
    invariant of the loop the two steps may rely on. *)
Lemma foldl_each {A B} (P : A → Prop) (Q : B → A → Prop) (f : A → B → A)
    (l : list B) (a : A) :
  P a →
  (∀ a b, b ∈ l → P a → P (f a b)) →
  (∀ a b, b ∈ l → P a → Q b (f a b)) →
  (∀ a b b', b ∈ l → P a → Q b' a → Q b' (f a b)) →
  ∀ b, b ∈ l → Q b (foldl f a l).
Proof.
  revert a. induction l as [|x l IH]; intros a Ha Hinv Hest Hkeep b Hb; simpl.
  - by apply elem_of_nil in Hb.
  - assert (Hx : x ∈ x :: l) by apply list_elem_of_here.
    apply elem_of_cons in Hb as [->|Hb].
    + apply (foldl_invariant (λ a', P a' ∧ Q x a')).
      * split; [by apply Hinv | by apply Hest].
      * intros a' b' Hb' [HP HQ]. apply list_elem_of_further with (y := x) in Hb'.
        split; [by apply Hinv | by apply Hkeep].
    + apply IH; [by apply Hinv | | | | done].
      * intros a' b' Hb'. apply Hinv. by apply list_elem_of_further.
      * intros a' b' Hb'. apply Hest. by apply list_elem_of_further.
      * intros a' b' b'' Hb'. apply Hkeep. by apply list_elem_of_further.
Qed.

Lemma foldl_fixed {A B} (f : A → B → A) (l : list B) (a : A) :
  (∀ b, b ∈ l → f a b = a) → foldl f a l = a.
Proof.
  induction l as [|x l IH]; intros H; simpl; [done|].
  rewrite H by apply list_elem_of_here.
  apply IH. intros b Hb. apply H. by apply list_elem_of_further.
Qed.

Lemma pile_eq (g1 g2 : SnowPile) :
  cellWidth g1 = cellWidth g2 →
  currentBuffer g1 = currentBuffer g2 →
  nextBuffer g1 = nextBuffer g2 →
  colCount g1 = colCount g2 →
  rowCount g1 = rowCount g2 →
  columnCounts g1 = columnCounts g2 →
  g1 = g2.
Proof. destruct g1, g2; simpl; intros; by subst. Qed.

(** ** Clearing *)

Lemma melted_refl (b : list Z) : melted b b.
Proof. intros i. by left. Qed.

Lemma melted_trans (b1 b2 b3 : list Z) :
  melted b1 b2 → melted b2 b3 → melted b1 b3.
Proof.
  intros H12 H23 i. destruct (H12 i) as [E|[E1 E2]], (H23 i) as [F|[F1 F2]].
  - left. congruence.
  - right. split; congruence.
  - right. split; congruence.
  - rewrite E2 in F1. discriminate.
Qed.

Lemma melted_wr (b : list Z) (i : Z) :
  rd b i = Some Snow → melted b (wr b i Empty).
Proof.
  intros H j. rewrite rd_wr. case_decide as E.
  - subst j. rewrite H. by right.
  - by left.
Qed.

Lemma melted_not_snow (b b' : list Z) (i : Z) :
  melted b b' → rd b i ≠ Some Snow → rd b' i = rd b i.
Proof. intros H Hi. by destruct (H i) as [E|[E _]]. Qed.

Lemma melted_keeps_clear (b b' : list Z) (i : Z) :
  melted b b' → rd b i ≠ Some Snow → rd b' i ≠ Some Snow.
Proof. intros H Hi. by rewrite (melted_not_snow _ _ _ H Hi). Qed.

Lemma clearAll_cell_spec (col : Z) (g : SnowPile) (row : Z) :
  same_frame g (clearAll_cell col g row) ∧
  columnCounts (clearAll_cell col g row) = columnCounts g ∧
  melted (currentBuffer g) (currentBuffer (clearAll_cell col g row)) ∧
  rd (currentBuffer (clearAll_cell col g row)) (row * colCount g + col)
    ≠ Some Snow.
Proof.
  unfold clearAll_cell, getValueUnsafe.
  destruct (is_val _ 1) eqn:E; simpl.
  - apply is_val_true in E. repeat split.
    + by apply melted_wr.
    + by rewrite (rd_wr_eq _ _ _ _ E).
  - apply is_val_false in E. repeat split; [apply melted_refl | done].
Qed.

Lemma wr_none (b : list Z) (i v : Z) : rd b i = None → wr b i v = b.
Proof.
  unfold rd, wr. destruct (i <? 0); [done|].
  intros H. apply list_insert_ge. by apply lookup_ge_None.
Qed.

Lemma rd_wr_zero (c : list Z) (i j : Z) :
  rd c i = Some 0 ∨ rd c i = None →
  rd (wr c j 0) i = Some 0 ∨ rd (wr c j 0) i = None.
Proof.
  intros H. rewrite rd_wr. case_decide; [|done].
  subst j. destruct (rd c i); auto.
Qed.

Lemma rd_wr_self_zero (c : list Z) (j : Z) :
  rd (wr c j 0) j = Some 0 ∨ rd (wr c j 0) j = None.
Proof. rewrite rd_wr. case_decide; [|done]. destruct (rd c j); auto. Qed.

Lemma clearAll_rows_spec (col : Z) (g : SnowPile) (l : list Z) :
  same_frame g (foldl (clearAll_cell col) g l) ∧
  columnCounts (foldl (clearAll_cell col) g l) = columnCounts g ∧
  melted (currentBuffer g) (currentBuffer (foldl (clearAll_cell col) g l)) ∧
  ∀ row, row ∈ l →
    rd (currentBuffer (foldl (clearAll_cell col) g l)) (row * colCount g + col)
      ≠ Some Snow.
Proof.
  set (P := λ a, same_frame g a ∧ columnCounts a = columnCounts g ∧
                 melted (currentBuffer g) (currentBuffer a)).
  assert (HP0 : P g).
  { unfold P, same_frame. auto using melted_refl. }
  assert (HPstep : ∀ a b, b ∈ l → P a → P (clearAll_cell col a b)).
  { intros a b _ (Hf & Hc & Hm).
    destruct (clearAll_cell_spec col a b) as (Hf' & Hc' & Hm' & _).
    unfold P, same_frame in *. repeat split; try congruence; try tauto.
    - destruct Hf, Hf'. congruence.
    - destruct Hf as (_ & ? & _), Hf' as (_ & ? & _). congruence.
    - destruct Hf as (_ & _ & ? & _), Hf' as (_ & _ & ? & _). congruence.
    - destruct Hf as (_ & _ & _ & ?), Hf' as (_ & _ & _ & ?). congruence.
    - by eapply melted_trans. }
  destruct (foldl_invariant P (clearAll_cell col) l g HP0 HPstep)
    as (Hf & Hc & Hm).
  repeat split; try done; try apply Hf.
  apply (foldl_each P
           (λ row a, rd (currentBuffer a) (row * colCount g + col) ≠ Some Snow));
    try done.
  - intros a b _ (Hf' & _ & _).
    destruct (clearAll_cell_spec col a b) as (_ & _ & _ & H).
    destruct Hf' as (_ & _ & <- & _). exact H.
  - intros a b b' _ _ H.
    destruct (clearAll_cell_spec col a b) as (_ & _ & Hm' & _).
    by eapply melted_keeps_clear.
Qed.

Lemma same_frame_refl (g : SnowPile) : same_frame g g.
Proof. by unfold same_frame. Qed.

Lemma same_frame_trans (g1 g2 g3 : SnowPile) :
  same_frame g1 g2 → same_frame g2 g3 → same_frame g1 g3.
Proof. unfold same_frame. intros (?&?&?&?) (?&?&?&?). repeat split; congruence. Qed.

Lemma cleared_refl (g : SnowPile) : cleared g g.
Proof. split; [apply same_frame_refl|]. split; [done | apply melted_refl]. Qed.

Lemma cleared_trans (g1 g2 g3 : SnowPile) :
  cleared g1 g2 → cleared g2 g3 → cleared g1 g3.
Proof.
  intros (Hf & Hl & Hm) (Hf' & Hl' & Hm'). split; [|split].
  - by eapply same_frame_trans.
  - congruence.
  - by eapply melted_trans.
Qed.

Lemma clearAll_col_spec (r : Z) (g : SnowPile) (col : Z) :
  cleared g (clearAll_col r g col) ∧
  (rd (columnCounts (clearAll_col r g col)) col = Some 0 ∨
   rd (columnCounts (clearAll_col r g col)) col = None) ∧
  (∀ i, rd (columnCounts g) i = Some 0 ∨ rd (columnCounts g) i = None →
        rd (columnCounts (clearAll_col r g col)) i = Some 0 ∨
        rd (columnCounts (clearAll_col r g col)) i = None) ∧
  ∀ row, row ∈ seqZ 0 r →
    rd (currentBuffer (clearAll_col r g col)) (row * colCount g + col)
      ≠ Some Snow.
Proof.
  destruct (clearAll_rows_spec col g (seqZ 0 r)) as (Hf & Hc & Hm & Hrows).
  unfold clearAll_col, cleared. simpl. rewrite Hc.
  repeat split; try apply Hf; try done.
  - apply length_wr.
  - apply rd_wr_self_zero.
  - intros i. apply rd_wr_zero.
Qed.

Lemma clearAllSnow_spec (g : SnowPile) :
  cleared g (clearAllSnow g) ∧
  ∀ col, col ∈ seqZ 0 (colCount g) →
    (rd (columnCounts (clearAllSnow g)) col = Some 0 ∨
     rd (columnCounts (clearAllSnow g)) col = None) ∧
    ∀ row, row ∈ seqZ 0 (rowCount g) →
      rd (currentBuffer (clearAllSnow g)) (row * colCount g + col)
        ≠ Some Snow.
Proof.
  unfold clearAllSnow.
  assert (Hstep : ∀ a b, b ∈ seqZ 0 (colCount g) → cleared g a →
                         cleared g (clearAll_col (rowCount g) a b)).
  { intros a b _ Ha. eapply cleared_trans; [done|].
    apply clearAll_col_spec. }
  split.
  - apply (foldl_invariant (cleared g)); [apply cleared_refl | done].
  - apply (foldl_each (cleared g)
      (λ col a,
         (rd (columnCounts a) col = Some 0 ∨ rd (columnCounts a) col = None) ∧
         ∀ row, row ∈ seqZ 0 (rowCount g) →
           rd (currentBuffer a) (row * colCount g + col) ≠ Some Snow));
      [apply cleared_refl | done | |].
    + intros a b _ ((_ & _ & Hcols & _) & _).
      destruct (clearAll_col_spec (rowCount g) a b) as (_ & Hz & _ & Hrows).
      rewrite Hcols in Hrows. by split.
    + intros a b b' _ _ [Hz Hrows].
      destruct (clearAll_col_spec (rowCount g) a b)
        as ((_ & _ & Hm) & _ & Hkeep & _).
      split; [by apply Hkeep|].
      intros row Hrow. eapply melted_keeps_clear; [done | by apply Hrows].
Qed.

Lemma set_counts_id (g : SnowPile) : set_counts g (columnCounts g) = g.
Proof. by destruct g. Qed.

Lemma clearAll_col_fixed (r : Z) (g : SnowPile) (col : Z) :
  (∀ row, row ∈ seqZ 0 r →
     rd (currentBuffer g) (row * colCount g + col) ≠ Some Snow) →
  (rd (columnCounts g) col = Some 0 ∨ rd (columnCounts g) col = None) →
  clearAll_col r g col = g.
Proof.
  intros Hrows Hz. unfold clearAll_col.
  rewrite foldl_fixed.
  - destruct Hz as [Hz|Hz].
    + rewrite (wr_id _ _ _ Hz). apply set_counts_id.
    + rewrite (wr_none _ _ _ Hz). apply set_counts_id.
  - intros row Hrow. unfold clearAll_cell, getValueUnsafe.
    destruct (is_val _ 1) eqn:E; [|done].
    apply is_val_true in E. by apply Hrows in Hrow.
Qed.

(** C7. [clearAllSnow] twice is [clearAllSnow] once.  After the call every
    cell of the grid that held [Snow] holds [Empty], every other cell of the
    grid (a [Blocker] among them) is as before, and every count of a column
    of the grid is 0. *)
Theorem clearAllSnow_idempotent (g : SnowPile) :
  clearAllSnow (clearAllSnow g) = clearAllSnow g ∧
  (∀ col row, 0 ≤ col < colCount g → 0 ≤ row < rowCount g →
     (getValue g col row = Some Snow →
      getValue (clearAllSnow g) col row = Some Empty) ∧
     (getValue g col row ≠ Some Snow →
      getValue (clearAllSnow g) col row = getValue g col row)) ∧
  (∀ col, 0 ≤ col < colCount g → is_Some (rd (columnCounts g) col) →
     rd (columnCounts (clearAllSnow g)) col = Some 0).
Proof.
  destruct (clearAllSnow_spec g) as ((Hf & Hlen & Hm) & Hcols).
  destruct Hf as (Hw & Hn & Hcc & Hrc).
  split; [|split].
  - unfold clearAllSnow at 1. rewrite Hcc, Hrc.
    apply foldl_fixed. intros col Hcol.
    destruct (Hcols col Hcol) as [Hz Hrows].
    apply clearAll_col_fixed; [|done].
    rewrite Hcc. exact Hrows.
  - intros col row Hc Hr.
    rewrite (getValue_inside g col row Hc Hr).
    rewrite (getValue_inside (clearAllSnow g) col row)
      by (by rewrite ?Hcc, ?Hrc).
    rewrite Hcc.
    destruct (Hcols col) as [_ Hrows]; [apply elem_of_seqZ; lia|].
    specialize (Hrows row). split.
    + intros Hs. destruct (Hm (row * colCount g + col)) as [E|[_ E]]; [|done].
      exfalso. apply Hrows; [apply elem_of_seqZ; lia|]. congruence.
    + intros Hs. by apply melted_not_snow.
  - intros col Hc [v Hv].
    destruct (Hcols col) as [[Hz|Hz] _]; [apply elem_of_seqZ; lia|done|].
    apply rd_Some_range in Hv. rewrite <- Hlen in Hv.
    destruct (rd_in_range _ _ Hv) as (w & Hw' & _). congruence.
Qed.

Lemma clearAllSnow_idempotent_witness :
  getValue snowy10 5 8 = Some Snow ∧
  getValue (clearAllSnow snowy10) 5 8 = Some Empty ∧
  getValue (clearAllSnow snowy10) 5 9 = Some Blocker ∧
  rd (columnCounts (clearAllSnow snowy10)) 5 = Some 0.
Proof.
  assert (Hcols : colCount snowy10 = 10) by (vm_compute; reflexivity).
  assert (Hrows : rowCount snowy10 = 10) by (vm_compute; reflexivity).
  assert (H58 : getValue snowy10 5 8 = Some Snow) by (vm_compute; reflexivity).
  assert (H59 : getValue snowy10 5 9 = Some Blocker)
    by (vm_compute; reflexivity).
  assert (H5 : rd (columnCounts snowy10) 5 = Some 2)
    by (vm_compute; reflexivity).
  destruct (clearAllSnow_idempotent snowy10) as (_ & Hcells & Hcounts).
  split; [exact H58|]. split; [|split].
  - apply Hcells; [rewrite Hcols; lia | rewrite Hrows; lia | exact H58].
  - destruct (Hcells 5 9) as [_ H]; [rewrite Hcols; lia | rewrite Hrows; lia |].
    rewrite H; [exact H59 | rewrite H59; discriminate].
  - apply Hcounts; [rewrite Hcols; lia|]. rewrite H5. by eexists.
Defined.

(** ** Blockers *)

Lemma same_blockers_refl (b : list Z) : same_blockers b b.
Proof. by intros i. Qed.

Lemma same_blockers_trans (b1 b2 b3 : list Z) :
  same_blockers b1 b2 → same_blockers b2 b3 → same_blockers b1 b3.
Proof. intros H12 H23 i. by rewrite (H12 i). Qed.

Lemma same_blockers_wr (b : list Z) (i v : Z) :
  rd b i ≠ Some Blocker → v ≠ Blocker → same_blockers b (wr b i v).
Proof.
  intros Hi Hv j. rewrite rd_wr. case_decide as E; [|done].
  subst j. destruct (rd b i) as [w|] eqn:Hw; [|done].
  split; [done|]. intros [= ->]. done.
Qed.

Lemma same_blockers_wr_r (b0 b : list Z) (i v : Z) :
  same_blockers b0 b → rd b0 i ≠ Some Blocker → v ≠ Blocker →
  same_blockers b0 (wr b i v).
Proof.
  intros H Hi Hv. eapply same_blockers_trans; [done|].
  apply same_blockers_wr; [|done]. by rewrite <- (H i).
Qed.

Lemma melted_same_blockers (b b' : list Z) : melted b b' → same_blockers b b'.
Proof.
  intros H i. destruct (H i) as [E|[E1 E2]].
  - by rewrite E.
  - rewrite E1, E2. split; discriminate.
Qed.

Lemma add_search_blockers (g : SnowPile) (col : Z) (n : nat) :
  same_blockers (currentBuffer g) (currentBuffer (add_search g col n)).
Proof.
  induction n as [|m IH]; simpl; [apply same_blockers_refl|].
  unfold getValueUnsafe.
  destruct (is_val _ 0) eqn:E; [|done].
  apply is_val_true in E. simpl.
  apply same_blockers_wr; [|done]. rewrite E. discriminate.
Qed.

Lemma add_blockers (cfg : Config) (g : SnowPile) (col baseRow : Z) :
  same_blockers (currentBuffer g) (currentBuffer (add cfg g col baseRow)).
Proof.
  unfold add. destruct (bottom_guard cfg g baseRow).
  - apply same_blockers_refl.
  - apply add_search_blockers.
Qed.

Lemma clearRow_melted (g : SnowPile) (rowIndex : Z) :
  melted (currentBuffer g) (currentBuffer (clearRow g rowIndex)).
Proof.
  unfold clearRow.
  apply (foldl_invariant (λ a, melted (currentBuffer g) (currentBuffer a)));
    [apply melted_refl|].
  intros a col _ Ha. eapply melted_trans; [done|].
  unfold clearRow_cell, getValueUnsafe.
  destruct (is_val _ 1) eqn:E; [|apply melted_refl].
  apply is_val_true in E. simpl. by apply melted_wr.
Qed.

Lemma pass_inv_store (g : SnowPile) (src dst v : Z) (s : Pass) :
  pass_inv g s → rd (currentBuffer g) dst ≠ Some Blocker → v ≠ Blocker →
  pass_inv g (store src dst v s).
Proof.
  intros [Hb Hg] Hdst Hv. split; [|done]. simpl.
  by apply same_blockers_wr_r.
Qed.

Lemma pass_inv_count_down (g : SnowPile) (col : Z) (s : Pass) :
  pass_inv g s → pass_inv g (count_down col s).
Proof. by intros [Hb Hg]. Qed.

Lemma pass_inv_count_up (g : SnowPile) (col : Z) (s : Pass) :
  pass_inv g s → pass_inv g (count_up col s).
Proof. by intros [Hb Hg]. Qed.

Lemma pass_inv_draw (random : nat → Q) (g : SnowPile) (s : Pass) :
  pass_inv g s → pass_inv g (draw random s).2.
Proof. by intros [Hb Hg]. Qed.

Lemma pass_inv_push (g : SnowPile) (col row : Z) (s : Pass) :
  pass_inv g s → rd (currentBuffer g) (row * colCount g + col) = Some Snow →
  pass_inv g (push_cascade col row s).
Proof.
  intros [Hb Hg] Hcell. split; [done|]. simpl.
  intros gap [Hgap|Hgap]%elem_of_app; [by apply Hg|].
  apply list_elem_of_singleton in Hgap. by subst gap.
Qed.

Lemma choose_dir_spec (random : nat → Q) (l r : bool) (s : Pass) :
  ((choose_dir random l r s).2 = s ∨
   (choose_dir random l r s).2 = (draw random s).2) ∧
  ((choose_dir random l r s).1 = 0 ∨
   ((choose_dir random l r s).1 = -1 ∧ l = true) ∨
   ((choose_dir random l r s).1 = 1 ∧ r = true)).
Proof.
  unfold choose_dir. destruct l, r; simpl; auto.
  destruct (Qlt_bool _ _); auto.
Qed.

Lemma spread_or_decay_inv (cfg : Config) (random : nat → Q) (g : SnowPile)
    (row col : Z) (s : Pass) :
  rd (currentBuffer g) (row * colCount g + col) = Some Snow →
  pass_inv g s → pass_inv g (spread_or_decay cfg random g row col s).
Proof.
  intros Hcell Hs. unfold spread_or_decay.
  assert (Hself : rd (currentBuffer g) (row * colCount g + col) ≠ Some Blocker)
    by (rewrite Hcell; discriminate).
  pose proof (pass_inv_draw random g s Hs) as Hd.
  destruct (draw random s) as [r s1] eqn:Hdraw. simpl in Hd.
  destruct (_ && (_ <? _)).
  - set (l := (0 <? col) && _). set (rt := (col <? colCount g - 1) && _).
    destruct (choose_dir_spec random l rt s1) as [Hs2 Hdir].
    destruct (choose_dir random l rt s1) as [dir s2]. simpl in Hs2, Hdir.
    assert (H2 : pass_inv g s2).
    { destruct Hs2 as [->| ->]; [done | by apply (pass_inv_draw random)]. }
    destruct (dir =? 0) eqn:E0; [done|].
    apply pass_inv_push; [|done].
    apply pass_inv_count_up, pass_inv_count_down.
    apply pass_inv_store; [|done|done].
    apply pass_inv_store; [done| |done].
    destruct Hdir as [->|[[-> Hl]|[-> Hr]]]; [done| |].
    + subst l. apply andb_true_iff in Hl as [_ Hl].
      apply is_val_true in Hl.
      replace (row * colCount g + col + -1) with (row * colCount g + col - 1)
        by lia.
      rewrite Hl. discriminate.
    + subst rt. apply andb_true_iff in Hr as [_ Hr].
      apply is_val_true in Hr. rewrite Hr. discriminate.
  - pose proof (pass_inv_draw random g s1 Hd) as Hd2.
    destruct (draw random s1) as [r3 s3]. simpl in Hd2.
    destruct (Qlt_bool r3 _); [|done].
    apply pass_inv_push; [|done].
    apply pass_inv_count_down. by apply pass_inv_store.
Qed.

Lemma process_cell_inv (cfg : Config) (random : nat → Q) (g : SnowPile)
    (row : Z) (s : Pass) (col : Z) :
  pass_inv g s → pass_inv g (process_cell cfg random g row s col).
Proof.
  intros Hs. unfold process_cell.
  destruct (is_val (rd _ (row * _ + col)) 1) eqn:Hcell; simpl; [|done].
  apply is_val_true in Hcell.
  destruct (is_val _ 0) eqn:Hbelow.
  - apply is_val_true in Hbelow.
    apply pass_inv_store; [|rewrite Hcell; discriminate|done].
    apply pass_inv_store; [done|rewrite Hbelow; discriminate|done].
  - destruct (is_val _ 2); [done|]. by apply spread_or_decay_inv.
Qed.

Lemma physics_inv (cfg : Config) (random : nat → Q) (g : SnowPile) :
  pass_inv g (physics cfg random g).
Proof.
  unfold physics. apply foldl_invariant.
  - split; [apply same_blockers_refl|]. simpl. intros gap Hgap.
    by apply elem_of_nil in Hgap.
  - intros s row _ Hs. unfold process_row.
    destruct (isRowFull g row); [done|].
    apply foldl_invariant; [done|].
    intros s' col _. apply process_cell_inv.
Qed.

Lemma cascade_loop_blockers (cols col : Z) (n : nat) :
  ∀ (buffer : list Z) (writeRow : Z),
    Z.of_nat n ≤ writeRow →
    (∀ r, Z.of_nat n ≤ r ≤ writeRow →
          rd buffer (r * cols + col) ≠ Some Blocker) →
    same_blockers buffer (cascade_loop cols col buffer writeRow n).
Proof.
  induction n as [|m IH]; intros buffer writeRow Hle Hfree; simpl;
    [apply same_blockers_refl|].
  destruct (is_val _ 1) eqn:Hsnow.
  - apply is_val_true in Hsnow.
    assert (Hstep : same_blockers buffer
              (wr (wr buffer (writeRow * cols + col) 1)
                  (Z.of_nat m * cols + col) 0)).
    { apply same_blockers_wr_r; [|rewrite Hsnow; discriminate|done].
      apply same_blockers_wr; [|done]. apply Hfree. lia. }
    eapply same_blockers_trans; [exact Hstep|].
    apply IH; [lia|]. intros r Hr. rewrite <- (Hstep _).
    destruct (decide (r = Z.of_nat m)) as [->|Hne].
    + rewrite Hsnow. discriminate.
    + apply Hfree. lia.
  - destruct (is_val _ 2) eqn:Hblock; [apply same_blockers_refl|].
    apply is_val_false in Hblock.
    apply IH; [lia|]. intros r Hr.
    destruct (decide (r = Z.of_nat m)) as [->|Hne]; [done|].
    apply Hfree. lia.
Qed.

Lemma cascadeColumn_blockers (cols : Z) (buffer : list Z) (col gapRow : Z) :
  rd buffer (gapRow * cols + col) ≠ Some Blocker →
  same_blockers buffer (cascadeColumn cols buffer col gapRow).
Proof.
  intros Hgap. unfold cascadeColumn.
  destruct (decide (0 ≤ gapRow)) as [Hpos|Hneg].
  - apply cascade_loop_blockers; [lia|].
    intros r Hr. replace r with gapRow by lia. done.
  - replace (Z.to_nat gapRow) with O by lia. apply same_blockers_refl.
Qed.

Lemma cascades_blockers (g : SnowPile) (gaps : list (Z * Z)) :
  ∀ next : list Z,
    same_blockers (currentBuffer g) next →
    (∀ gap, gap ∈ gaps →
       rd (currentBuffer g) (snd gap * colCount g + fst gap) = Some Snow) →
    same_blockers (currentBuffer g) (cascades g next gaps).
Proof.
  induction gaps as [|gap gaps IH]; intros next Hnext Hgaps; simpl; [done|].
  apply IH.
  - eapply same_blockers_trans; [exact Hnext|].
    apply cascadeColumn_blockers. rewrite <- (Hnext _).
    rewrite (Hgaps gap) by apply list_elem_of_here. discriminate.
  - intros gap' Hgap'. apply Hgaps. by apply list_elem_of_further.
Qed.

Lemma drain_cell_melted (start : Z) (s : list Z * list Z) (col : Z) :
  melted s.1 (drain_cell start s col).1.
Proof.
  unfold drain_cell. destruct (is_val _ 1) eqn:E; [|apply melted_refl].
  apply is_val_true in E. simpl. by apply melted_wr.
Qed.

Lemma drain_melted (g : SnowPile) (s : list Z * list Z) :
  melted s.1 (drain g s).1.
Proof.
  unfold drain.
  apply (foldl_invariant (λ a : list Z * list Z, melted s.1 a.1));
    [apply melted_refl|].
  intros a col _ Ha. eapply melted_trans; [done|]. apply drain_cell_melted.
Qed.

Lemma settled_blockers (cfg : Config) (random : nat → Q) (g : SnowPile) :
  same_blockers (currentBuffer g) (settled cfg random g).1.
Proof.
  destruct (physics_inv cfg random g) as [Hb Hgaps].
  unfold settled. simpl. by apply cascades_blockers.
Qed.

Lemma update_blockers (cfg : Config) (random : nat → Q) (g : SnowPile) :
  same_blockers (currentBuffer g) (currentBuffer (update cfg random g)).
Proof.
  unfold update. simpl. destruct (collectAtBottom cfg).
  - apply settled_blockers.
  - eapply same_blockers_trans; [apply settled_blockers|].
    apply melted_same_blockers, drain_melted.
Qed.

Lemma call_blockers (cfg : Config) (g : SnowPile) (c : Call) :
  same_blockers (currentBuffer g) (currentBuffer (call cfg g c)).
Proof.
  destruct c as [col baseRow|random|rowIndex|]; simpl.
  - apply add_blockers.
  - apply update_blockers.
  - apply melted_same_blockers, clearRow_melted.
  - apply melted_same_blockers. by destruct (clearAllSnow_spec g) as [(_&_&H) _].
Qed.

(** The grid keeps its dimensions. *)
Lemma add_search_dims (g : SnowPile) (col : Z) (n : nat) :
  colCount (add_search g col n) = colCount g ∧
  rowCount (add_search g col n) = rowCount g.
Proof.
  induction n as [|m IH]; simpl; [done|].
  by destruct (is_val _ 0).
Qed.

Lemma call_dims (cfg : Config) (g : SnowPile) (c : Call) :
  colCount (call cfg g c) = colCount g ∧ rowCount (call cfg g c) = rowCount g.
Proof.
  destruct c as [col baseRow|random|rowIndex|]; simpl.
  - unfold add. destruct (bottom_guard cfg g baseRow); [done|].
    apply add_search_dims.
  - done.
  - unfold clearRow.
    apply (foldl_invariant
             (λ a, colCount a = colCount g ∧ rowCount a = rowCount g));
      [done|].
    intros a col _ Ha. unfold clearRow_cell. by destruct (is_val _ 1).
  - destruct (clearAllSnow_spec g) as [((_&_&?&?)&_) _]. done.
Qed.

Lemma calls_dims (cfg : Config) (cs : list Call) :
  ∀ g, colCount (calls cfg g cs) = colCount g ∧
       rowCount (calls cfg g cs) = rowCount g.
Proof.
  induction cs as [|c cs IH]; intros g; simpl; [done|].
  unfold calls in *. simpl.
  destruct (IH (call cfg g c)) as [-> ->]. apply call_dims.
Qed.

Lemma calls_blockers (cfg : Config) (cs : list Call) :
  ∀ g, same_blockers (currentBuffer g) (currentBuffer (calls cfg g cs)).
Proof.
  induction cs as [|c cs IH]; intros g; [apply same_blockers_refl|].
  eapply same_blockers_trans; [apply (call_blockers cfg g c)|].
  apply (IH (call cfg g c)).
Qed.

(** C3. A cell that is a [Blocker] stays a [Blocker] through any sequence of
    [add], [update], [clearRow] and [clearAllSnow] calls, whatever the random
    draws of each update; no call turns another cell into a [Blocker]
    either.  The cells marked by [resize] are an instance. *)
Theorem blockers_fixed (cfg : Config) (g : SnowPile) (cs : list Call)
    (col row : Z) :
  getValue g col row = Some Blocker →
  getValue (calls cfg g cs) col row = Some Blocker ∧
  rd (currentBuffer (calls cfg g cs)) (row * colCount g + col) = Some Blocker.
Proof.
  intros H.
  assert (Hin : 0 ≤ col < colCount g ∧ 0 ≤ row < rowCount g).
  { destruct (decide (0 ≤ col < colCount g ∧ 0 ≤ row < rowCount g)); [done|].
    rewrite getValue_outside in H; done. }
  destruct Hin as [Hcol Hrow].
  destruct (calls_dims cfg cs g) as [Hc Hr].
  rewrite (getValue_inside (calls cfg g cs) col row)
    by (by rewrite ?Hc, ?Hr).
  rewrite (getValue_inside g col row Hcol Hrow) in H. rewrite Hc.
  split; by apply (calls_blockers cfg cs g).
Qed.

Lemma blockers_fixed_witness :
  getValue ledge10 5 9 = Some Blocker ∧
  getValue (calls CONFIG ledge10 storm) 5 9 = Some Blocker.
Proof.
  assert (H : getValue ledge10 5 9 = Some Blocker) by (vm_compute; reflexivity).
  split; [exact H|].
  exact (proj1 (blockers_fixed CONFIG ledge10 storm 5 9 H)).
Defined.

(** ** The bottom row as a drain *)

Lemma rd_decr (counts : list Z) (i j : Z) :
  rd (decr counts j) i =
  if decide (j = i) then (λ v, wrap16 (v - 1)) <$> rd counts j
  else rd counts i.
Proof.
  unfold decr. destruct (rd counts j) as [v|] eqn:Hv.
  - rewrite rd_wr, Hv. by case_decide.
  - case_decide; [|done]. subst i. by rewrite Hv.
Qed.

Lemma rd_incr (counts : list Z) (i j : Z) :
  rd (incr counts j) i =
  if decide (j = i) then (λ v, wrap16 (v + 1)) <$> rd counts j
  else rd counts i.
Proof.
  unfold incr. destruct (rd counts j) as [v|] eqn:Hv.
  - rewrite rd_wr, Hv. by case_decide.
  - case_decide; [|done]. subst i. by rewrite Hv.
Qed.

Lemma drain_cell_at (start : Z) (s : list Z * list Z) (col : Z) :
  rd (drain_cell start s col).1 (start + col) =
    (if is_val (rd s.1 (start + col)) 1 then Some Empty
     else rd s.1 (start + col)) ∧
  rd (drain_cell start s col).2 col =
    (if is_val (rd s.1 (start + col)) 1
     then (λ v, wrap16 (v - 1)) <$> rd s.2 col
     else rd s.2 col).
Proof.
  unfold drain_cell. destruct (is_val _ 1) eqn:E; [|done].
  apply is_val_true in E. simpl. split.
  - by rewrite (rd_wr_eq _ _ _ _ E).
  - rewrite rd_decr. by case_decide.
Qed.

Lemma drain_cell_other (start : Z) (s : list Z * list Z) (col c : Z) :
  c ≠ col →
  rd (drain_cell start s c).1 (start + col) = rd s.1 (start + col) ∧
  rd (drain_cell start s c).2 col = rd s.2 col.
Proof.
  intros Hne. unfold drain_cell. destruct (is_val _ 1); [|done]. simpl.
  split.
  - apply rd_wr_ne. lia.
  - rewrite rd_decr. by case_decide.
Qed.

Lemma drain_skip (start : Z) (l : list Z) (s : list Z * list Z) (col : Z) :
  col ∉ l →
  rd (foldl (drain_cell start) s l).1 (start + col) = rd s.1 (start + col) ∧
  rd (foldl (drain_cell start) s l).2 col = rd s.2 col.
Proof.
  intros Hnotin.
  apply (foldl_invariant
    (λ a : list Z * list Z,
       rd a.1 (start + col) = rd s.1 (start + col) ∧ rd a.2 col = rd s.2 col));
    [done|].
  intros a c Hc [H1 H2].
  destruct (drain_cell_other start a col c) as [-> ->]; [|done].
  intros ->. done.
Qed.

Lemma seqZ_split (n col : Z) :
  0 ≤ col < n →
  seqZ 0 n = seqZ 0 col ++ col :: seqZ (col + 1) (n - col - 1).
Proof.
  intros H.
  replace n with (col + (n - col)) at 1 by lia.
  rewrite seqZ_app by lia. f_equal.
  rewrite seqZ_cons by lia. simpl. f_equal; lia.
Qed.

Lemma drain_at (g : SnowPile) (s : list Z * list Z) (col : Z) :
  0 ≤ col < colCount g →
  rd (drain g s).1 ((rowCount g - 1) * colCount g + col) =
    (if is_val (rd s.1 ((rowCount g - 1) * colCount g + col)) 1
     then Some Empty
     else rd s.1 ((rowCount g - 1) * colCount g + col)) ∧
  rd (drain g s).2 col =
    (if is_val (rd s.1 ((rowCount g - 1) * colCount g + col)) 1
     then (λ v, wrap16 (v - 1)) <$> rd s.2 col
     else rd s.2 col).
Proof.
  intros Hcol. unfold drain.
  set (start := (rowCount g - 1) * colCount g).
  rewrite (seqZ_split (colCount g) col Hcol).
  rewrite foldl_app. simpl.
  set (s1 := foldl (drain_cell start) s (seqZ 0 col)).
  destruct (drain_skip start (seqZ 0 col) s col) as [Hb1 Hc1].
  { rewrite elem_of_seqZ. lia. }
  destruct (drain_skip start (seqZ (col + 1) (colCount g - col - 1))
              (drain_cell start s1 col) col) as [Hb2 Hc2].
  { rewrite elem_of_seqZ. lia. }
  rewrite Hb2, Hc2.
  destruct (drain_cell_at start s1 col) as [-> ->].
  fold s1 in Hb1, Hc1. by rewrite Hb1, Hc1.
Qed.

(** C6. With bottom accumulation disabled, after [update] no cell of the
    last row of the active buffer holds [Snow].  A last-row cell that held
    [Snow] after the cascades is [Empty] and the count of its column is one
    less (modulo 2^16); any other last-row cell and the count of its column
    are as the cascades left them. *)
Theorem update_drains_bottom_row (cfg : Config) (random : nat → Q)
    (g : SnowPile) (col : Z) :
  collectAtBottom cfg = false →
  0 ≤ col < colCount g →
  getValue (update cfg random g) col (rowCount g - 1) ≠ Some Snow ∧
  (rd (settled cfg random g).1 ((rowCount g - 1) * colCount g + col)
     = Some Snow →
   rd (currentBuffer (update cfg random g))
      ((rowCount g - 1) * colCount g + col) = Some Empty ∧
   rd (columnCounts (update cfg random g)) col =
     (λ v, wrap16 (v - 1)) <$> rd (settled cfg random g).2 col) ∧
  (rd (settled cfg random g).1 ((rowCount g - 1) * colCount g + col)
     ≠ Some Snow →
   rd (currentBuffer (update cfg random g))
      ((rowCount g - 1) * colCount g + col) =
     rd (settled cfg random g).1 ((rowCount g - 1) * colCount g + col) ∧
   rd (columnCounts (update cfg random g)) col =
     rd (settled cfg random g).2 col).
Proof.
  intros Hcfg Hcol.
  destruct (drain_at g (settled cfg random g) col Hcol) as [Hb Hc].
  assert (Hcur : currentBuffer (update cfg random g)
                 = (drain g (settled cfg random g)).1)
    by (unfold update; by rewrite Hcfg).
  assert (Hcnt : columnCounts (update cfg random g)
                 = (drain g (settled cfg random g)).2)
    by (unfold update; by rewrite Hcfg).
  split; [|split].
  - unfold getValue, getIndex. rewrite Hcur.
    change (colCount (update cfg random g)) with (colCount g).
    destruct (_ || _); [done|]. rewrite Hb.
    destruct (is_val _ 1) eqn:E; [done|]. by apply is_val_false in E.
  - intros Hsnow. apply is_val_true in Hsnow. unfold Snow in Hsnow.
    rewrite Hcur, Hcnt, Hb, Hc, Hsnow. done.
  - intros Hsnow. apply is_val_false in Hsnow. unfold Snow in Hsnow.
    rewrite Hcur, Hcnt, Hb, Hc, Hsnow. done.
Qed.

Lemma update_drains_bottom_row_witness :
  getValue one_flake10 5 8 = Some Snow ∧
  getValue (update CONFIG calm one_flake10) 5 9 ≠ Some Snow ∧
  rd (columnCounts one_flake10) 5 = Some 1 ∧
  rd (columnCounts (update CONFIG calm one_flake10)) 5 = Some 0.
Proof.
  assert (Hcols : colCount one_flake10 = 10) by (vm_compute; reflexivity).
  assert (Hrows : rowCount one_flake10 = 10) by (vm_compute; reflexivity).
  assert (Hpre : rd (settled CONFIG calm one_flake10).1 95 = Some Snow)
    by (vm_compute; reflexivity).
  assert (Hcnt : rd (settled CONFIG calm one_flake10).2 5 = Some 1)
    by (vm_compute; reflexivity).
  destruct (update_drains_bottom_row CONFIG calm one_flake10 5)
    as (H1 & H2 & _); [reflexivity | rewrite Hcols; lia |].
  rewrite Hrows in H1. rewrite Hcols, Hrows in H2.
  change (10 - 1) with 9 in H1. change ((10 - 1) * 10 + 5) with 95 in H2.
  destruct (H2 Hpre) as [_ H3]. rewrite Hcnt in H3.
  split; [vm_compute; reflexivity|]. split; [exact H1|].
  split; [vm_compute; reflexivity | exact H3].
Defined.

(** ** The stores of the physics pass *)

Lemma replay_snoc (b : list Z) (log : list Write) (w : Write) :
  replay b (log ++ [w]) = wr (replay b log) (w_dst w) (w_val w).
Proof. unfold replay. by rewrite foldl_app. Qed.

(** A property of the pass state kept by each of its primitive steps is
    kept by the processing of a cell. *)
Lemma process_cell_preserves (P : Pass → Prop) (cfg : Config)
    (random : nat → Q) (g : SnowPile) :
  (∀ src dst v s, P s → P (store src dst v s)) →
  (∀ col s, P s → P (count_down col s)) →
  (∀ col s, P s → P (count_up col s)) →
  (∀ col row s, P s → P (push_cascade col row s)) →
  (∀ s, P s → P (draw random s).2) →
  ∀ row s col, P s → P (process_cell cfg random g row s col).
Proof.
  intros Hstore Hdown Hup Hpush Hdraw row s col Hs. unfold process_cell.
  destruct (negb _); [done|].
  destruct (is_val _ 0); [by do 2 apply Hstore|].
  destruct (is_val _ 2); [done|].
  unfold spread_or_decay.
  pose proof (Hdraw s Hs) as Hd.
  destruct (draw random s) as [r s1]. simpl in Hd.
  destruct (_ && (_ <? _)).
  - set (l := (0 <? col) && _). set (rt := (col <? colCount g - 1) && _).
    destruct (choose_dir_spec random l rt s1) as [Hs2 _].
    destruct (choose_dir random l rt s1) as [dir s2]. simpl in Hs2.
    assert (H2 : P s2) by (destruct Hs2 as [->| ->]; [done | by apply Hdraw]).
    destruct (dir =? 0); [done|].
    apply Hpush, Hup, Hdown. by do 2 apply Hstore.
  - pose proof (Hdraw s1 Hd) as Hd2.
    destruct (draw random s1) as [r3 s3]. simpl in Hd2.
    destruct (Qlt_bool r3 _); [|done].
    apply Hpush, Hdown. by apply Hstore.
Qed.

Lemma physics_preserves (P : Pass → Prop) (cfg : Config) (random : nat → Q)
    (g : SnowPile) :
  (∀ src dst v s, P s → P (store src dst v s)) →
  (∀ col s, P s → P (count_down col s)) →
  (∀ col s, P s → P (count_up col s)) →
  (∀ col row s, P s → P (push_cascade col row s)) →
  (∀ s, P s → P (draw random s).2) →
  P {| p_next := currentBuffer g; p_counts := columnCounts g;
       p_cascade := []; p_draws := O; p_log := [] |} →
  P (physics cfg random g).
Proof.
  intros Hstore Hdown Hup Hpush Hdraw H0. unfold physics.
  apply foldl_invariant; [done|].
  intros s row _ Hs. unfold process_row.
  destruct (isRowFull g row); [done|].
  apply foldl_invariant; [done|].
  intros s' col _. by apply process_cell_preserves.
Qed.

(** The log is the list of the stores of the pass: replaying it on a copy
    of the active buffer gives the write buffer. *)
Lemma physics_log_faithful (cfg : Config) (random : nat → Q) (g : SnowPile) :
  p_next (physics cfg random g)
  = replay (currentBuffer g) (p_log (physics cfg random g)).
Proof.
  apply (physics_preserves
           (λ s, p_next s = replay (currentBuffer g) (p_log s))); try done.
  intros src dst v s Hs. simpl. by rewrite replay_snoc, <- Hs.
Qed.

(** The stores issued for one cell of the active buffer: none; or [Snow]
    into the cell below or beside it, which is [Empty] in the active buffer,
    followed by the clearing of the cell; or the clearing alone. *)
Lemma process_cell_log (cfg : Config) (random : nat → Q) (g : SnowPile)
    (row : Z) (s : Pass) (col : Z) :
  ∃ ws, p_log (process_cell cfg random g row s col) = p_log s ++ ws ∧
    (ws = [] ∨
     (∃ dst,
        ws = [ {| w_src := row * colCount g + col; w_dst := dst;
                  w_val := Snow |};
               {| w_src := row * colCount g + col;
                  w_dst := row * colCount g + col; w_val := Empty |} ] ∧
        rd (currentBuffer g) dst = Some Empty ∧
        rd (currentBuffer g) (row * colCount g + col) = Some Snow) ∨
     (ws = [ {| w_src := row * colCount g + col;
                w_dst := row * colCount g + col; w_val := Empty |} ] ∧
      rd (currentBuffer g) (row * colCount g + col) = Some Snow)).
Proof.
  unfold process_cell.
  destruct (is_val (rd _ (row * _ + col)) 1) eqn:Hcell; simpl;
    [|exists []; by rewrite app_nil_r; auto].
  apply is_val_true in Hcell.
  destruct (is_val _ 0) eqn:Hbelow.
  { apply is_val_true in Hbelow. eexists. simpl. rewrite <- app_assoc.
    split; [done|]. right. left. by eexists. }
  destruct (is_val _ 2); [exists []; by rewrite app_nil_r; auto|].
  unfold spread_or_decay.
  assert (Hd : p_log (draw random s).2 = p_log s) by done.
  destruct (draw random s) as [r s1]. simpl in Hd.
  destruct (_ && (_ <? _)).
  - set (l := (0 <? col) && _). set (rt := (col <? colCount g - 1) && _).
    destruct (choose_dir_spec random l rt s1) as [Hs2 Hdir].
    destruct (choose_dir random l rt s1) as [dir s2]. simpl in Hs2, Hdir.
    assert (H2 : p_log s2 = p_log s).
    { destruct Hs2 as [->| ->]; [done | by simpl]. }
    destruct (dir =? 0) eqn:E0;
      [exists []; by rewrite app_nil_r; auto|].
    eexists. simpl. rewrite <- app_assoc, H2. split; [done|].
    right. left. eexists. split; [done|]. split; [|done].
    destruct Hdir as [->|[[-> Hl]|[-> Hr]]]; [done| |].
    + subst l. apply andb_true_iff in Hl as [_ Hl].
      apply is_val_true in Hl.
      replace (row * colCount g + col + -1) with (row * colCount g + col - 1)
        by lia. exact Hl.
    + subst rt. apply andb_true_iff in Hr as [_ Hr].
      by apply is_val_true in Hr.
  - assert (Hd2 : p_log (draw random s1).2 = p_log s) by done.
    destruct (draw random s1) as [r3 s3]. simpl in Hd2.
    destruct (Qlt_bool r3 _); [|exists []; by rewrite app_nil_r; auto].
    eexists. simpl. rewrite Hd2. split; [done|]. right. right. done.
Qed.

(** C2, on the code.  In the update of [twin10] under [gust] the cell at
    index 61 (column 1, row 6) of the write buffer receives [Snow] twice:
    from index 60 (column 0, row 6), which spreads to the right, and from
    index 62 (column 2, row 6), which spreads to the left.  In the update of
    [merge10] under [gust] index 71 (column 1, row 7) receives [Snow] from
    index 70 (column 0, row 7), which spreads to the right, and from index
    61 (column 1, row 6), which falls.  Each log is the whole list of stores
    of the pass, and each time two [Snow] cells end as one. *)
Theorem one_destination_two_sources :
  p_log (physics CONFIG gust twin10) =
    [ {| w_src := 60; w_dst := 61; w_val := Snow |};
      {| w_src := 60; w_dst := 60; w_val := Empty |};
      {| w_src := 62; w_dst := 61; w_val := Snow |};
      {| w_src := 62; w_dst := 62; w_val := Empty |} ] ∧
  single_source (p_log (physics CONFIG gust twin10)) = false ∧
  map (λ c, rows_with 10 10 (currentBuffer twin10) c Snow) [0; 1; 2]
    = [[6; 7]; []; [6; 7]] ∧
  map (λ c, rows_with 10 10 (currentBuffer (update CONFIG gust twin10)) c Snow)
      [0; 1; 2]
    = [[7]; [6]; [7]] ∧
  p_log (physics CONFIG gust merge10) =
    [ {| w_src := 80; w_dst := 90; w_val := Snow |};
      {| w_src := 80; w_dst := 80; w_val := Empty |};
      {| w_src := 70; w_dst := 71; w_val := Snow |};
      {| w_src := 70; w_dst := 70; w_val := Empty |};
      {| w_src := 61; w_dst := 71; w_val := Snow |};
      {| w_src := 61; w_dst := 61; w_val := Empty |} ] ∧
  single_source (p_log (physics CONFIG gust merge10)) = false ∧
  map (λ c, rows_with 10 10 (currentBuffer merge10) c Snow) [0; 1]
    = [[7; 8]; [6]] ∧
  map (λ c, rows_with 10 10 (currentBuffer (update CONFIG gust merge10)) c Snow)
      [0; 1]
    = [[]; [7]].
Proof. vm_compute. repeat split; reflexivity. Qed.

(** ** Buffer sizes *)

Lemma length_incr (counts : list Z) (i : Z) :
  length (incr counts i) = length counts.
Proof. unfold incr. destruct (rd counts i); [apply length_wr | done]. Qed.

Lemma length_decr (counts : list Z) (i : Z) :
  length (decr counts i) = length counts.
Proof. unfold decr. destruct (rd counts i); [apply length_wr | done]. Qed.

Lemma length_cascade_loop (cols col : Z) (n : nat) :
  ∀ buffer writeRow,
    length (cascade_loop cols col buffer writeRow n) = length buffer.
Proof.
  induction n as [|m IH]; intros buffer writeRow; simpl; [done|].
  destruct (is_val _ 1); [by rewrite IH, !length_wr|].
  destruct (is_val _ 2); [done | apply IH].
Qed.

Lemma length_cascades (g : SnowPile) (gaps : list (Z * Z)) :
  ∀ next, length (cascades g next gaps) = length next.
Proof.
  induction gaps as [|gap gaps IH]; intros next; [done|].
  change (cascades g next (gap :: gaps))
    with (cascades g (cascadeColumn (colCount g) next gap.1 gap.2) gaps).
  rewrite IH. apply length_cascade_loop.
Qed.

Lemma length_drain (g : SnowPile) (s : list Z * list Z) :
  length (drain g s).1 = length s.1 ∧ length (drain g s).2 = length s.2.
Proof.
  unfold drain.
  apply (foldl_invariant (λ a : list Z * list Z,
           length a.1 = length s.1 ∧ length a.2 = length s.2)); [done|].
  intros a col _ [H1 H2]. unfold drain_cell.
  destruct (is_val _ 1); [|done]. simpl.
  by rewrite length_wr, length_decr.
Qed.

Lemma length_physics (cfg : Config) (random : nat → Q) (g : SnowPile) :
  length (p_next (physics cfg random g)) = length (currentBuffer g) ∧
  length (p_counts (physics cfg random g)) = length (columnCounts g).
Proof.
  apply (physics_preserves
    (λ s, length (p_next s) = length (currentBuffer g) ∧
          length (p_counts s) = length (columnCounts g))); try done.
  - intros src dst v s [H1 H2]. simpl. by rewrite length_wr.
  - intros col s [H1 H2]. simpl. by rewrite length_decr.
  - intros col s [H1 H2]. simpl. by rewrite length_incr.
Qed.

Lemma update_wf (cfg : Config) (random : nat → Q) (g : SnowPile) :
  wf g → wf (update cfg random g).
Proof.
  intros (Hc & Hr & Hcur & Hnext & Hcnt).
  destruct (length_physics cfg random g) as [Hp1 Hp2].
  assert (Hs : length (settled cfg random g).1 = length (currentBuffer g) ∧
               length (settled cfg random g).2 = length (columnCounts g)).
  { unfold settled. simpl. by rewrite length_cascades. }
  destruct (length_drain g (settled cfg random g)) as [Hd1 Hd2].
  destruct Hs as [Hs1 Hs2].
  assert (Hlen :
    length (currentBuffer (update cfg random g)) = length (currentBuffer g) ∧
    length (columnCounts (update cfg random g)) = length (columnCounts g)).
  { unfold update.
    destruct (collectAtBottom cfg); cbn [currentBuffer columnCounts];
      split; congruence. }
  destruct Hlen as [Hl1 Hl2]. unfold wf. rewrite Hl1, Hl2.
  change (colCount (update cfg random g)) with (colCount g).
  change (rowCount (update cfg random g)) with (rowCount g).
  change (nextBuffer (update cfg random g)) with (currentBuffer g).
  done.
Qed.

Lemma add_search_lengths (g : SnowPile) (col : Z) (n : nat) :
  length (currentBuffer (add_search g col n)) = length (currentBuffer g) ∧
  nextBuffer (add_search g col n) = nextBuffer g ∧
  length (columnCounts (add_search g col n)) = length (columnCounts g).
Proof.
  induction n as [|m IH]; simpl; [done|].
  destruct (is_val _ 0); [|done]. simpl.
  by rewrite length_wr, length_incr.
Qed.

Lemma clearRow_lengths (g : SnowPile) (rowIndex : Z) :
  length (currentBuffer (clearRow g rowIndex)) = length (currentBuffer g) ∧
  nextBuffer (clearRow g rowIndex) = nextBuffer g ∧
  length (columnCounts (clearRow g rowIndex)) = length (columnCounts g).
Proof.
  unfold clearRow.
  apply (foldl_invariant (λ a,
    length (currentBuffer a) = length (currentBuffer g) ∧
    nextBuffer a = nextBuffer g ∧
    length (columnCounts a) = length (columnCounts g))); [done|].
  intros a col _ (H1 & H2 & H3). unfold clearRow_cell.
  destruct (is_val _ 1); [|done]. simpl.
  by rewrite length_wr, length_decr.
Qed.

Lemma melted_length (b b' : list Z) : melted b b' → length b' = length b.
Proof.
  intros H.
  assert (Hle : ∀ b1 b2 : list Z,
            (∀ i, is_Some (rd b1 i) → is_Some (rd b2 i)) →
            (length b1 ≤ length b2)%nat).
  { intros b1 b2 Himp. destruct (decide (length b1 ≤ length b2)%nat); [done|].
    destruct (Himp (Z.of_nat (length b2))) as [v Hv].
    - destruct (rd_in_range b1 (Z.of_nat (length b2))) as (w & Hw & _);
        [lia | by exists w].
    - apply rd_Some_range in Hv. lia. }
  apply Nat.le_antisymm; apply Hle; intros i [v Hv].
  - destruct (H i) as [E|[E _]]; [rewrite <- E; by exists v | by rewrite E].
  - destruct (H i) as [E|[_ E]]; [rewrite E; by exists v | by rewrite E].
Qed.

Lemma call_wf (cfg : Config) (g : SnowPile) (c : Call) :
  wf g → wf (call cfg g c).
Proof.
  intros Hwf. destruct (call_dims cfg g c) as [Hc Hr].
  destruct c as [col baseRow|random|rowIndex|]; [| by apply update_wf | |];
    destruct Hwf as (H1 & H2 & H3 & H4 & H5);
    unfold wf; rewrite Hc, Hr; simpl in *.
  - unfold add. destruct (bottom_guard cfg g baseRow); [done|].
    destruct (add_search_lengths g col
                (Z.to_nat (Z.min baseRow (rowCount g - 1) + 1)))
      as (-> & -> & ->). done.
  - destruct (clearRow_lengths g rowIndex) as (-> & -> & ->). done.
  - destruct (clearAllSnow_spec g) as [((_ & Hn & _) & Hl & Hm) _].
    apply melted_length in Hm. rewrite Hm, Hn, Hl. done.
Qed.

(** Every pile reached from a well-formed one is well-formed: the two
    buffers keep their common length, which [next.set(current)] relies on. *)
Lemma calls_wf (cfg : Config) (cs : list Call) :
  ∀ g, wf g → wf (calls cfg g cs).
Proof.
  induction cs as [|c cs IH]; intros g Hwf; [done|].
  apply (IH (call cfg g c)). by apply call_wf.
Qed.

(** ** Counting the snow of a column *)

Lemma idx_inj (cols r c r' c' : Z) :
  0 ≤ c < cols → 0 ≤ c' < cols → r * cols + c = r' * cols + c' →
  r = r' ∧ c = c'.
Proof. intros Hc Hc' E. assert (r = r') by nia. subst r'. lia. Qed.

Lemma filter_ext_in {A} (P1 P2 : A → Prop)
    `{!∀ x, Decision (P1 x), !∀ x, Decision (P2 x)} (l : list A) :
  (∀ x, x ∈ l → P1 x ↔ P2 x) → filter P1 l = filter P2 l.
Proof.
  induction l as [|a l IH]; intros Hiff; [done|].
  rewrite !filter_cons.
  rewrite IH by (intros x Hx; apply Hiff; by apply list_elem_of_further).
  assert (Ha : P1 a ↔ P2 a) by apply Hiff, list_elem_of_here.
  destruct (decide (P1 a)), (decide (P2 a)); tauto.
Qed.

Lemma rows_with_other (cols rows : Z) (b : list Z) (i v c k : Z) :
  (∀ r, 0 ≤ r < rows → r * cols + c ≠ i) →
  rows_with cols rows (wr b i v) c k = rows_with cols rows b c k.
Proof.
  intros Hne. unfold rows_with. apply filter_ext_in.
  intros r Hr%elem_of_seqZ. rewrite rd_wr_ne; [done|].
  intros E. apply (Hne r); [lia | done].
Qed.

Lemma snow_len_wr (cols rows : Z) (b : list Z) (row c v old : Z) :
  0 ≤ row < rows → 0 ≤ c < cols → rd b (row * cols + c) = Some old →
  Z.of_nat (length (rows_with cols rows (wr b (row * cols + c) v) c Snow)) =
  Z.of_nat (length (rows_with cols rows b c Snow))
  + (if v =? Snow then 1 else 0) - (if old =? Snow then 1 else 0).
Proof.
  intros Hrow Hc Hold. unfold rows_with.
  rewrite (seqZ_split rows row Hrow). rewrite !filter_app, !filter_cons.
  rewrite (rd_wr_eq _ _ _ _ Hold), Hold. simpl is_val.
  rewrite (filter_ext_in
    (λ r, is_val (rd (wr b (row * cols + c) v) (r * cols + c)) Snow = true)
    (λ r, is_val (rd b (r * cols + c)) Snow = true) (seqZ 0 row)).
  2:{ intros r Hr%elem_of_seqZ. rewrite rd_wr_ne; [done|].
      intros E. apply idx_inj in E as [E _]; lia. }
  rewrite (filter_ext_in
    (λ r, is_val (rd (wr b (row * cols + c) v) (r * cols + c)) Snow = true)
    (λ r, is_val (rd b (r * cols + c)) Snow = true)
    (seqZ (row + 1) (rows - row - 1))).
  2:{ intros r Hr%elem_of_seqZ. rewrite rd_wr_ne; [done|].
      intros E. apply idx_inj in E as [E _]; lia. }
  rewrite !length_app.
  destruct (v =? Snow), (old =? Snow); repeat case_decide; try done;
    simpl length; lia.
Qed.

Lemma snowCount_bound (g : SnowPile) (c : Z) :
  0 ≤ rowCount g → 0 ≤ snowCount g c ≤ rowCount g.
Proof.
  intros Hr. unfold snowCount, rows_with.
  pose proof (length_filter
    (λ row, is_val (rd (currentBuffer g) (row * colCount g + c)) Snow = true)
    (seqZ 0 (rowCount g))) as H.
  rewrite length_seqZ in H. lia.
Qed.

Lemma counts_exact_iff (g : SnowPile) : counts_exact g = true ↔ counts_ok g.
Proof.
  unfold counts_exact, counts_ok. rewrite forallb_forall. split.
  - intros H c Hc. apply is_val_true, H, list_elem_of_In, elem_of_seqZ. lia.
  - intros H c Hc%list_elem_of_In%elem_of_seqZ. apply is_val_true, H. lia.
Qed.

Lemma wrap16_small (v : Z) : 0 ≤ v < 65536 → wrap16 v = v.
Proof. intros H. unfold wrap16. by apply Z.mod_small. Qed.

(** Writing [v] over a cell of the grid, with the matching change of the
    count of its column, keeps the counts exact. *)
Lemma counts_ok_wr (g : SnowPile) (col row v old : Z) (counts' : list Z) :
  wf g → counts_ok g →
  0 ≤ col < colCount g → 0 ≤ row < rowCount g →
  rd (currentBuffer g) (row * colCount g + col) = Some old →
  (∀ c, c ≠ col → rd counts' c = rd (columnCounts g) c) →
  rd counts' col =
    (λ n, wrap16 (n + (if v =? Snow then 1 else 0)
                    - (if old =? Snow then 1 else 0)))
    <$> rd (columnCounts g) col →
  counts_ok (set_counts (setValueUnsafe g col row v) counts').
Proof.
  intros Hwf Hok Hcol Hrow Hold Hother Hself c Hc. simpl in Hc.
  set (g' := set_counts (setValueUnsafe g col row v) counts').
  change (rd counts' c = Some (snowCount g' c)).
  destruct (decide (c = col)) as [->|Hne].
  - pose proof (snowCount_bound g' col) as Hb.
    unfold snowCount in *. simpl in *.
    rewrite (snow_len_wr _ _ _ _ _ _ _ Hrow Hcol Hold) in *.
    rewrite Hself, (Hok col Hcol). simpl. f_equal.
    apply wrap16_small. destruct Hwf as (_ & Hr & _). lia.
  - rewrite (Hother c Hne), (Hok c Hc). f_equal.
    unfold snowCount. simpl. f_equal. f_equal.
    symmetry. apply rows_with_other. intros r Hr E.
    apply idx_inj in E as [_ E]; [done | lia | lia].
Qed.

Lemma add_search_counts_ok (g : SnowPile) (col : Z) (n : nat) :
  wf g → counts_ok g → 0 ≤ col < colCount g → Z.of_nat n ≤ rowCount g →
  counts_ok (add_search g col n).
Proof.
  intros Hwf Hok Hcol. induction n as [|m IH]; intros Hn; simpl; [done|].
  destruct (is_val _ 0) eqn:Hcell; [|apply IH; lia].
  apply is_val_true in Hcell. unfold getValueUnsafe in Hcell.
  apply (counts_ok_wr g col (Z.of_nat m) 1 0); try done; try lia.
  - intros c Hne. rewrite rd_incr. by case_decide.
  - rewrite rd_incr. case_decide; [|done].
    destruct (rd (columnCounts g) col); simpl; [|done].
    do 2 f_equal. lia.
Qed.

(** [add] into a column of the grid keeps the counts exact. *)
Lemma add_counts_ok (cfg : Config) (g : SnowPile) (col baseRow : Z) :
  wf g → counts_ok g → 0 ≤ col < colCount g →
  counts_ok (add cfg g col baseRow).
Proof.
  intros Hwf Hok Hcol. unfold add.
  destruct (bottom_guard cfg g baseRow); [done|].
  apply add_search_counts_ok; try done.
  destruct Hwf as (_ & Hr & _). lia.
Qed.

Lemma clearRow_cell_counts_ok (rowIndex : Z) (g : SnowPile) (col : Z) :
  wf g → counts_ok g → 0 ≤ col < colCount g →
  wf (clearRow_cell rowIndex g col) ∧ counts_ok (clearRow_cell rowIndex g col).
Proof.
  intros Hwf Hok Hcol. unfold clearRow_cell.
  destruct (is_val _ 1) eqn:Hcell; [|done].
  apply is_val_true in Hcell. unfold getValueUnsafe in Hcell. split.
  - destruct Hwf as (H1 & H2 & H3 & H4 & H5). unfold wf. simpl.
    by rewrite length_wr, length_decr.
  - assert (Hrow : 0 ≤ rowIndex < rowCount g).
    { pose proof (rd_Some_range _ _ _ Hcell) as Hi.
      destruct Hwf as (H1 & H2 & H3 & _). rewrite H3 in Hi. nia. }
    apply (counts_ok_wr g col rowIndex 0 1); try done.
    + intros c Hne. rewrite rd_decr. by case_decide.
    + rewrite rd_decr. case_decide; [|done].
      destruct (rd (columnCounts g) col); simpl; [|done].
      do 2 f_equal. lia.
Qed.

(** [clearRow] keeps the counts exact, for any row index. *)
Lemma clearRow_counts_ok (g : SnowPile) (rowIndex : Z) :
  wf g → counts_ok g → counts_ok (clearRow g rowIndex).
Proof.
  intros Hwf Hok. unfold clearRow.
  apply (foldl_invariant
    (λ a, colCount a = colCount g ∧ wf a ∧ counts_ok a)); [done|].
  intros a col Hc%elem_of_seqZ (Hcols & Hwfa & Hoka).
  split.
  - unfold clearRow_cell. by destruct (is_val _ 1).
  - apply clearRow_cell_counts_ok; try done. lia.
Qed.

Lemma filter_none {A} (P : A → Prop) `{!∀ x, Decision (P x)} (l : list A) :
  (∀ x, x ∈ l → ¬ P x) → filter P l = [].
Proof.
  induction l as [|a l IH]; intros Hnone; [done|].
  rewrite filter_cons_False by apply Hnone, list_elem_of_here.
  apply IH. intros x Hx. by apply Hnone, list_elem_of_further.
Qed.

(** [clearAllSnow] makes the counts exact, whatever they were. *)
Lemma clearAllSnow_counts_ok (g : SnowPile) :
  wf g → counts_ok (clearAllSnow g).
Proof.
  intros (H1 & H2 & H3 & H4 & H5) c Hc.
  destruct (clearAllSnow_spec g) as (((_ & _ & Hcc & Hrc) & Hlen & _) & Hcols).
  rewrite Hcc in Hc.
  destruct (Hcols c) as [Hz Hrows]; [apply elem_of_seqZ; lia|].
  unfold snowCount, rows_with. rewrite Hcc, Hrc.
  rewrite filter_none.
  - destruct Hz as [Hz|Hz]; [done|].
    destruct (rd_in_range (columnCounts (clearAllSnow g)) c) as (v & Hv & _);
      [lia | congruence].
  - intros row Hrow Hsnow. apply is_val_true in Hsnow. by apply (Hrows row).
Qed.

(** The calls other than [update] keep the counts exact on a well-formed
    pile, [add] being given a column of the grid. *)
Lemma quiet_call_counts_ok (cfg : Config) (g : SnowPile) (c : Call) :
  wf g → counts_ok g →
  match c with
  | CallStep _ => False
  | CallAdd col _ => 0 ≤ col < colCount g
  | _ => True
  end →
  counts_ok (call cfg g c).
Proof.
  intros Hwf Hok Hc. destruct c as [col baseRow|random|rowIndex|]; simpl.
  - by apply add_counts_ok.
  - done.
  - by apply clearRow_counts_ok.
  - by apply clearAllSnow_counts_ok.
Qed.

(** ** Cached counts *)

Lemma wf_10x10 (g : SnowPile) :
  colCount g = 10 → rowCount g = 10 →
  length (currentBuffer g) = 100%nat → length (nextBuffer g) = 100%nat →
  length (columnCounts g) = 10%nat →
  wf g.
Proof. intros Hc Hr H1 H2 H3. unfold wf. rewrite Hc, Hr, H1, H2, H3. lia. Qed.

(** The grids built by [resize] in the scenarios are well-formed with exact
    counts, and so is every pile reached from them by calls other than
    [update] (see [quiet_call_counts_ok]): [twin10], [merge10] and
    [stack10] among them. *)
Lemma resized_counts_ok :
  (wf empty10 ∧ counts_ok empty10) ∧ (wf shelf10 ∧ counts_ok shelf10).
Proof.
  split; (split;
    [apply wf_10x10; vm_compute; reflexivity
    |apply counts_exact_iff; vm_compute; reflexivity]).
Qed.

(** C1, on the code.  [twin10], [merge10] and [stack10] are reached from a
    grid built by [resize] by [add] calls only, and their counts are exact.
    After one update of [twin10] under [gust] column 1 holds one [Snow] cell
    and [columnCounts[1]] is 2; the same after one update of [merge10].
    After one update of [stack10] under [thaw], where two cells of column 0
    decay, column 0 holds four [Snow] cells and [columnCounts[0]] is 5. *)
Theorem columnCounts_out_of_step :
  counts_exact twin10 = true ∧
  snowCount (update CONFIG gust twin10) 1 = 1 ∧
  rd (columnCounts (update CONFIG gust twin10)) 1 = Some 2 ∧
  counts_exact (update CONFIG gust twin10) = false ∧
  counts_exact merge10 = true ∧
  snowCount (update CONFIG gust merge10) 1 = 1 ∧
  rd (columnCounts (update CONFIG gust merge10)) 1 = Some 2 ∧
  counts_exact (update CONFIG gust merge10) = false ∧
  counts_exact stack10 = true ∧
  snowCount (update CONFIG thaw stack10) 0 = 4 ∧
  rd (columnCounts (update CONFIG thaw stack10)) 0 = Some 5 ∧
  counts_exact (update CONFIG thaw stack10) = false.
Proof. vm_compute. repeat split; reflexivity. Qed.

(** * Further properties *)

(** ** Where [add] puts the flake *)

Lemma add_search_first_empty (g : SnowPile) (col r : Z) (n : nat) :
  0 ≤ r < Z.of_nat n →
  getValueUnsafe g col r = Some Empty →
  (∀ r', r < r' < Z.of_nat n → getValueUnsafe g col r' ≠ Some Empty) →
  add_search g col n =
  set_counts (setValueUnsafe g col r Snow) (incr (columnCounts g) col).
Proof.
  induction n as [|m IH]; intros Hr Hcell Habove; [lia|].
  destruct (decide (r = Z.of_nat m)) as [->|Hne].
  - by apply add_search_hit.
  - simpl. destruct (is_val _ 0) eqn:E.
    + apply is_val_true in E. exfalso. apply (Habove (Z.of_nat m)); [lia|done].
    + apply IH; [lia | done |]. intros r' Hr'. apply Habove. lia.
Qed.

Lemma add_search_full (g : SnowPile) (col : Z) (n : nat) :
  (∀ r, 0 ≤ r < Z.of_nat n → getValueUnsafe g col r ≠ Some Empty) →
  add_search g col n = g.
Proof.
  induction n as [|m IH]; intros Hfull; [done|]. simpl.
  destruct (is_val _ 0) eqn:E.
  - apply is_val_true in E. exfalso. apply (Hfull (Z.of_nat m)); [lia|done].
  - apply IH. intros r Hr. apply Hfull. lia.
Qed.

(** X1. When its guard on the bottom row does not fire, [add] writes
    [Snow] into the lowest [Empty] cell of the column at or above
    [min(baseRow, rowCount - 1)] and increments the count of the column;
    when no cell there is [Empty] it changes nothing. *)
Theorem add_lowest_empty (cfg : Config) (g : SnowPile) (col baseRow : Z) :
  bottom_guard cfg g baseRow = false →
  (∀ r, 0 ≤ r ≤ Z.min baseRow (rowCount g - 1) →
        getValueUnsafe g col r = Some Empty →
        (∀ r', r < r' ≤ Z.min baseRow (rowCount g - 1) →
               getValueUnsafe g col r' ≠ Some Empty) →
        add cfg g col baseRow =
        set_counts (setValueUnsafe g col r Snow) (incr (columnCounts g) col)) ∧
  ((∀ r, 0 ≤ r ≤ Z.min baseRow (rowCount g - 1) →
         getValueUnsafe g col r ≠ Some Empty) →
   add cfg g col baseRow = g).
Proof.
  intros Hguard. unfold add. rewrite Hguard. split.
  - intros r Hr Hcell Habove.
    apply add_search_first_empty; [lia | done |].
    intros r' Hr'. apply Habove. lia.
  - intros Hfull. apply add_search_full. intros r Hr. apply Hfull. lia.
Qed.

Lemma add_lowest_empty_witness :
  getValue (add CONFIG snowy10 5 8) 5 6 = Some Snow ∧
  add CONFIG (add CONFIG tiny 0 0) 0 0 = add CONFIG tiny 0 0.
Proof.
  split.
  - destruct (add_lowest_empty CONFIG snowy10 5 8) as [H _];
      [vm_compute; reflexivity|].
    rewrite (H 6).
    + vm_compute. reflexivity.
    + assert (Hrows : rowCount snowy10 = 10) by (vm_compute; reflexivity).
      rewrite Hrows. lia.
    + vm_compute. reflexivity.
    + assert (Hrows : rowCount snowy10 = 10) by (vm_compute; reflexivity).
      rewrite Hrows. intros r' Hr'.
      assert (Hcases : r' = 7 ∨ r' = 8) by lia.
      destruct Hcases as [-> | ->]; vm_compute; discriminate.
  - destruct (add_lowest_empty CONFIG (add CONFIG tiny 0 0) 0 0) as [_ H];
      [vm_compute; reflexivity|].
    apply H.
    assert (Hrows : rowCount (add CONFIG tiny 0 0) = 2)
      by (vm_compute; reflexivity).
    rewrite Hrows. intros r Hr. assert (r = 0) as -> by lia.
    vm_compute. discriminate.
Defined.

(** X2. On a well-formed pile whose counts are exact, [add] into a column
    of the grid leaves a well-formed pile whose counts are exact:
    [getColumnCount] of every column is the number of its [Snow] cells. *)
Theorem add_keeps_counts_exact (cfg : Config) (g : SnowPile)
    (col baseRow : Z) :
  wf g → counts_ok g → 0 ≤ col < colCount g →
  wf (add cfg g col baseRow) ∧
  ∀ c, 0 ≤ c < colCount g →
    getColumnCount (add cfg g col baseRow) c
    = Some (snowCount (add cfg g col baseRow) c).
Proof.
  intros Hwf Hok Hcol. split.
  - apply (call_wf cfg g (CallAdd col baseRow) Hwf).
  - intros c Hc. unfold getColumnCount.
    apply (add_counts_ok cfg g col baseRow Hwf Hok Hcol).
    destruct (call_dims cfg g (CallAdd col baseRow)) as [Hd _].
    simpl in Hd. by rewrite Hd.
Qed.

Lemma add_keeps_counts_exact_witness :
  getColumnCount (add CONFIG empty10 5 8) 5
  = Some (snowCount (add CONFIG empty10 5 8) 5).
Proof.
  destruct resized_counts_ok as [[Hwf Hok] _].
  assert (Hcols : colCount empty10 = 10) by (vm_compute; reflexivity).
  destruct (add_keeps_counts_exact CONFIG empty10 5 8 Hwf Hok) as [_ H];
    [rewrite Hcols; lia|].
  apply H. rewrite Hcols. lia.
Defined.

(** ** Clearing one row *)

Lemma clearRow_cell_dims (rowIndex : Z) (g : SnowPile) (col : Z) :
  colCount (clearRow_cell rowIndex g col) = colCount g ∧
  rowCount (clearRow_cell rowIndex g col) = rowCount g.
Proof. unfold clearRow_cell. by destruct (is_val _ 1). Qed.

Lemma clearRow_cell_at (rowIndex : Z) (g : SnowPile) (col : Z) :
  rd (currentBuffer (clearRow_cell rowIndex g col))
     (rowIndex * colCount g + col) =
    (if is_val (rd (currentBuffer g) (rowIndex * colCount g + col)) Snow
     then Some Empty
     else rd (currentBuffer g) (rowIndex * colCount g + col)) ∧
  rd (columnCounts (clearRow_cell rowIndex g col)) col =
    (if is_val (rd (currentBuffer g) (rowIndex * colCount g + col)) Snow
     then (λ v, wrap16 (v - 1)) <$> rd (columnCounts g) col
     else rd (columnCounts g) col).
Proof.
  unfold clearRow_cell, getValueUnsafe. change Snow with 1.
  destruct (is_val _ 1) eqn:E; [|done].
  apply is_val_true in E. simpl. split.
  - by rewrite (rd_wr_eq _ _ _ _ E).
  - rewrite rd_decr. by case_decide.
Qed.

Lemma clearRow_cell_other (rowIndex : Z) (g : SnowPile) (c : Z) :
  (∀ i, i ≠ rowIndex * colCount g + c →
        rd (currentBuffer (clearRow_cell rowIndex g c)) i
        = rd (currentBuffer g) i) ∧
  (∀ col, col ≠ c →
        rd (columnCounts (clearRow_cell rowIndex g c)) col
        = rd (columnCounts g) col).
Proof.
  unfold clearRow_cell, getValueUnsafe.
  destruct (is_val _ 1); [|done]. simpl. split.
  - intros i Hi. by apply rd_wr_ne.
  - intros col Hcol. rewrite rd_decr. by case_decide.
Qed.

Lemma clearRow_skip (rowIndex : Z) (g : SnowPile) (l : list Z) :
  colCount (foldl (clearRow_cell rowIndex) g l) = colCount g ∧
  (∀ i, (∀ c, c ∈ l → i ≠ rowIndex * colCount g + c) →
        rd (currentBuffer (foldl (clearRow_cell rowIndex) g l)) i
        = rd (currentBuffer g) i) ∧
  (∀ col, col ∉ l →
        rd (columnCounts (foldl (clearRow_cell rowIndex) g l)) col
        = rd (columnCounts g) col).
Proof.
  revert g. induction l as [|c l IH]; intros g; [done|]. simpl.
  destruct (IH (clearRow_cell rowIndex g c)) as (Hd & Hb & Hc).
  destruct (clearRow_cell_dims rowIndex g c) as [Hcols _].
  destruct (clearRow_cell_other rowIndex g c) as [Hb1 Hc1].
  rewrite Hcols in *. split; [done|]. split.
  - intros i Hi. rewrite Hb.
    + apply Hb1, Hi, list_elem_of_here.
    + intros c' Hc'. apply Hi. by apply list_elem_of_further.
  - intros col Hcol. apply not_elem_of_cons in Hcol as [Hne Hnotin].
    rewrite Hc by done. by apply Hc1.
Qed.

(** X3. [clearRow(rowIndex)] turns every [Snow] cell of the row into
    [Empty] and decrements the count of its column (modulo 2^16); a cell of
    the row that is not [Snow] and the count of its column stay as they
    were, and so does every cell outside the row. *)
Theorem clearRow_effect (g : SnowPile) (rowIndex : Z) :
  (∀ col, 0 ≤ col < colCount g →
     rd (currentBuffer (clearRow g rowIndex)) (rowIndex * colCount g + col) =
       (if is_val (rd (currentBuffer g) (rowIndex * colCount g + col)) Snow
        then Some Empty
        else rd (currentBuffer g) (rowIndex * colCount g + col)) ∧
     getColumnCount (clearRow g rowIndex) col =
       (if is_val (rd (currentBuffer g) (rowIndex * colCount g + col)) Snow
        then (λ v, wrap16 (v - 1)) <$> getColumnCount g col
        else getColumnCount g col)) ∧
  (∀ i, (∀ c, 0 ≤ c < colCount g → i ≠ rowIndex * colCount g + c) →
     rd (currentBuffer (clearRow g rowIndex)) i = rd (currentBuffer g) i).
Proof.
  unfold clearRow, getColumnCount. split.
  - intros col Hcol.
    rewrite (seqZ_split (colCount g) col Hcol), foldl_app. simpl.
    set (g1 := foldl (clearRow_cell rowIndex) g (seqZ 0 col)).
    destruct (clearRow_skip rowIndex g (seqZ 0 col)) as (Hd1 & Hb1 & Hc1).
    fold g1 in Hd1, Hb1, Hc1.
    destruct (clearRow_skip rowIndex (clearRow_cell rowIndex g1 col)
                (seqZ (col + 1) (colCount g - col - 1))) as (_ & Hb2 & Hc2).
    destruct (clearRow_cell_dims rowIndex g1 col) as [Hd2 _].
    rewrite Hd2, Hd1 in Hb2.
    rewrite Hb2, Hc2.
    + destruct (clearRow_cell_at rowIndex g1 col) as [Ha Hb].
      rewrite Hd1 in Ha, Hb. rewrite Ha, Hb.
      rewrite Hb1, Hc1; [done | |].
      * rewrite elem_of_seqZ. lia.
      * intros c Hc%elem_of_seqZ. lia.
    + rewrite elem_of_seqZ. lia.
    + intros c Hc%elem_of_seqZ. lia.
  - intros i Hi.
    destruct (clearRow_skip rowIndex g (seqZ 0 (colCount g))) as (_ & Hb & _).
    apply Hb. intros c Hc%elem_of_seqZ. apply Hi. lia.
Qed.

Lemma clearRow_effect_witness :
  getValue snowy10 5 8 = Some Snow ∧
  getValue (clearRow snowy10 8) 5 8 = Some Empty ∧
  getColumnCount snowy10 5 = Some 2 ∧
  getColumnCount (clearRow snowy10 8) 5 = Some 1.
Proof.
  assert (Hcols : colCount snowy10 = 10) by (vm_compute; reflexivity).
  assert (Hcell : rd (currentBuffer snowy10) 85 = Some Snow)
    by (vm_compute; reflexivity).
  assert (Hcount : getColumnCount snowy10 5 = Some 2)
    by (vm_compute; reflexivity).
  destruct (clearRow_effect snowy10 8) as [H _].
  destruct (H 5) as [H1 H2]; [rewrite Hcols; lia|].
  rewrite Hcols in H1, H2. change (8 * 10 + 5) with 85 in H1, H2.
  rewrite Hcell in H1, H2. rewrite Hcount in H2.
  split; [vm_compute; reflexivity|]. split; [|split; [done|exact H2]].
  assert (Hc' : colCount (clearRow snowy10 8) = 10)
    by (vm_compute; reflexivity).
  assert (Hr' : rowCount (clearRow snowy10 8) = 10)
    by (vm_compute; reflexivity).
  rewrite getValue_inside; rewrite ?Hc', ?Hr'; [exact H1 | lia | lia].
Defined.

(** X4. [clearRow] keeps a well-formed pile well-formed and exact counts
    exact, for any row index; with a row index outside the grid it changes
    nothing. *)
Theorem clearRow_keeps_counts_exact (g : SnowPile) (rowIndex : Z) :
  wf g →
  wf (clearRow g rowIndex) ∧
  (counts_ok g → counts_ok (clearRow g rowIndex)) ∧
  (¬ 0 ≤ rowIndex < rowCount g → clearRow g rowIndex = g).
Proof.
  intros Hwf. split; [|split].
  - apply (call_wf CONFIG g (CallClearRow rowIndex) Hwf).
  - intros Hok. by apply clearRow_counts_ok.
  - intros Hout. unfold clearRow. apply foldl_fixed.
    intros col Hcol%elem_of_seqZ. unfold clearRow_cell, getValueUnsafe.
    destruct (is_val _ 1) eqn:E; [|done].
    apply is_val_true in E. apply rd_Some_range in E.
    destruct Hwf as (H1 & H2 & H3 & _). rewrite H3 in E. nia.
Qed.

Lemma clearRow_keeps_counts_exact_witness :
  counts_ok (clearRow empty10 3) ∧ clearRow empty10 10 = empty10.
Proof.
  destruct resized_counts_ok as [[Hwf Hok] _].
  destruct (clearRow_keeps_counts_exact empty10 3 Hwf) as (_ & H1 & _).
  destruct (clearRow_keeps_counts_exact empty10 10 Hwf) as (_ & _ & H2).
  split; [by apply H1|]. apply H2.
  assert (Hrows : rowCount empty10 = 10) by (vm_compute; reflexivity).
  rewrite Hrows. lia.
Defined.

(** ** Full rows and full cells *)

Lemma isInBounds_iff (g : SnowPile) (col row : Z) :
  isInBounds g col row = true ↔
  0 ≤ col < colCount g ∧ 0 ≤ row < rowCount g.
Proof. unfold isInBounds. rewrite !andb_true_iff. lia. Qed.

Lemma wf_read_in_grid (g : SnowPile) (col row v : Z) :
  wf g → 0 ≤ col < colCount g →
  rd (currentBuffer g) (row * colCount g + col) = Some v →
  0 ≤ row < rowCount g.
Proof.
  intros (H1 & H2 & H3 & _) Hcol Hv. apply rd_Some_range in Hv.
  rewrite H3 in Hv. nia.
Qed.

(** X5. On a well-formed pile [isRowFull(r)] is true exactly when the
    bounds-checked read of every column of row [r] gives [Snow]: a row
    outside a grid that has a column is never full, and in a grid without
    columns every row is. *)
Theorem isRowFull_iff (g : SnowPile) (rowIndex : Z) :
  wf g →
  (isRowFull g rowIndex = true ↔
   (colCount g = 0 ∨ 0 ≤ rowIndex < rowCount g) ∧
   ∀ col, 0 ≤ col < colCount g → getValue g col rowIndex = Some Snow).
Proof.
  intros Hwf. unfold isRowFull. rewrite forallb_forall. split.
  - intros H.
    assert (Hall : ∀ col, 0 ≤ col < colCount g →
              rd (currentBuffer g) (rowIndex * colCount g + col) = Some Snow).
    { intros col Hcol. apply is_val_true, H, list_elem_of_In, elem_of_seqZ.
      lia. }
    assert (Hrow : colCount g = 0 ∨ 0 ≤ rowIndex < rowCount g).
    { destruct (decide (colCount g = 0)) as [|Hne]; [by left|right].
      destruct Hwf as (H1 & Hwf').
      apply (wf_read_in_grid g 0 rowIndex Snow); [done | lia |].
      apply Hall. lia. }
    split; [done|]. intros col Hcol.
    rewrite getValue_inside; [by apply Hall | done | lia].
  - intros [Hrow Hall] col Hcol%list_elem_of_In%elem_of_seqZ.
    apply is_val_true. unfold getValueUnsafe.
    rewrite <- getValue_inside; [apply Hall; lia | lia | lia].
Qed.

Lemma isRowFull_iff_witness :
  isRowFull (add CONFIG tiny 0 0) 0 = true ∧ isRowFull empty10 10 = false.
Proof.
  assert (Hwf : wf (add CONFIG tiny 0 0)).
  { unfold wf.
    assert (Hc : colCount (add CONFIG tiny 0 0) = 1)
      by (vm_compute; reflexivity).
    assert (Hr : rowCount (add CONFIG tiny 0 0) = 2)
      by (vm_compute; reflexivity).
    assert (H1 : length (currentBuffer (add CONFIG tiny 0 0)) = 2%nat)
      by (vm_compute; reflexivity).
    assert (H2 : length (nextBuffer (add CONFIG tiny 0 0)) = 2%nat)
      by (vm_compute; reflexivity).
    assert (H3 : length (columnCounts (add CONFIG tiny 0 0)) = 1%nat)
      by (vm_compute; reflexivity).
    rewrite Hc, Hr, H1, H2, H3. lia. }
  split.
  - apply (isRowFull_iff (add CONFIG tiny 0 0) 0 Hwf).
    assert (Hc : colCount (add CONFIG tiny 0 0) = 1)
      by (vm_compute; reflexivity).
    assert (Hr : rowCount (add CONFIG tiny 0 0) = 2)
      by (vm_compute; reflexivity).
    rewrite Hc, Hr. split; [lia|].
    intros col Hcol. assert (col = 0) as -> by lia.
    vm_compute. reflexivity.
  - destruct resized_counts_ok as [[Hwf10 _] _].
    apply not_true_is_false. intros Hfull.
    apply (isRowFull_iff empty10 10 Hwf10) in Hfull as [Hrow _].
    assert (Hc : colCount empty10 = 10) by (vm_compute; reflexivity).
    assert (Hr : rowCount empty10 = 10) by (vm_compute; reflexivity).
    rewrite Hc, Hr in Hrow. lia.
Defined.

Lemma isCellFull_true (g : SnowPile) (col row : Z) :
  isCellFull g col row = true ↔
  (0 ≤ col < colCount g ∧ 0 ≤ row < rowCount g) ∧
  getValueUnsafe g col row = Some Snow ∧
  (row = 0 ∨ getValueUnsafe g col (row - 1) ≠ Some Snow).
Proof.
  unfold isCellFull.
  destruct (isInBounds g col row) eqn:Hin; simpl.
  - apply isInBounds_iff in Hin.
    rewrite andb_true_iff, orb_true_iff, negb_true_iff, Z.eqb_eq.
    rewrite is_val_true, is_val_false. tauto.
  - split; [done|]. intros [Hb _]. apply isInBounds_iff in Hb. congruence.
Qed.

(** X6. [isCellFull(col, row)] is true exactly when the coordinates are in
    the grid, the cell is [Snow], and the cell is in row 0 or the cell above
    it is not [Snow]; it is false for every coordinate outside the grid. *)
Theorem isCellFull_iff (g : SnowPile) (col row : Z) :
  (isCellFull g col row = true ↔
   getValue g col row = Some Snow ∧
   (row = 0 ∨ getValue g col (row - 1) ≠ Some Snow)) ∧
  (¬ (0 ≤ col < colCount g ∧ 0 ≤ row < rowCount g) →
   isCellFull g col row = false).
Proof.
  split.
  - rewrite isCellFull_true. unfold getValueUnsafe. split.
    + intros ([Hc Hr] & Hcell & Habove).
      rewrite getValue_inside by done. split; [done|].
      destruct Habove as [->|Habove]; [by left|].
      destruct (decide (row = 0)) as [->|Hne]; [by left|right].
      rewrite getValue_inside by lia. done.
    + intros [Hcell Habove].
      assert (Hin : 0 ≤ col < colCount g ∧ 0 ≤ row < rowCount g).
      { destruct (decide (0 ≤ col < colCount g ∧ 0 ≤ row < rowCount g));
          [done|].
        rewrite getValue_outside in Hcell; done. }
      destruct Hin as [Hc Hr]. rewrite getValue_inside in Hcell by done.
      split; [done|]. split; [done|].
      destruct Habove as [->|Habove]; [by left|].
      destruct (decide (row = 0)) as [->|Hne]; [by left|right].
      rewrite getValue_inside in Habove by lia. done.
  - intros Hout. apply not_true_is_false. rewrite isCellFull_true.
    intros [Hin _]. done.
Qed.

Lemma isCellFull_iff_witness :
  isCellFull snowy10 5 7 = true ∧ isCellFull snowy10 5 10 = false.
Proof.
  assert (Hc : colCount snowy10 = 10) by (vm_compute; reflexivity).
  assert (Hr : rowCount snowy10 = 10) by (vm_compute; reflexivity).
  destruct (isCellFull_iff snowy10 5 7) as [H1 _].
  destruct (isCellFull_iff snowy10 5 10) as [_ H2].
  split.
  - apply H1. split; [vm_compute; reflexivity|].
    right. vm_compute. discriminate.
  - apply H2. rewrite Hc, Hr. lia.
Defined.

(** X7. In every column the full cells are the tops of the runs of
    [Snow]: the cell below a full cell is not full, and above every [Snow]
    cell of the grid, or at it, there is a full cell with nothing but
    [Snow] between the two. *)
Theorem isCellFull_top_of_run (g : SnowPile) (col row : Z) :
  (isCellFull g col row = true → isCellFull g col (row + 1) = false) ∧
  (getValue g col row = Some Snow →
   ∃ top, 0 ≤ top ≤ row ∧ isCellFull g col top = true ∧
          ∀ r, top ≤ r ≤ row → getValue g col r = Some Snow).
Proof.
  split.
  - intros H. apply isCellFull_true in H as ([_ Hr] & Hcell & _).
    apply not_true_is_false. intros H'.
    apply isCellFull_true in H' as (_ & _ & [H0|Habove]).
    + lia.
    + apply Habove. by replace (row + 1 - 1) with row by lia.
  - intros Hcell.
    assert (Hin : 0 ≤ col < colCount g ∧ 0 ≤ row < rowCount g).
    { destruct (decide (0 ≤ col < colCount g ∧ 0 ≤ row < rowCount g));
        [done|].
      rewrite getValue_outside in Hcell; done. }
    destruct Hin as [Hc Hr].
    assert (Hgen : ∀ n : nat, ∀ r0, r0 = Z.of_nat n → r0 < rowCount g →
      getValue g col r0 = Some Snow →
      ∃ top, 0 ≤ top ≤ r0 ∧ isCellFull g col top = true ∧
             ∀ r, top ≤ r ≤ r0 → getValue g col r = Some Snow).
    { induction n as [|m IH]; intros r0 -> Hr0 Hsnow.
      - exists 0. split; [lia|]. split.
        + apply isCellFull_true. split; [lia|]. split; [|by left].
          unfold getValueUnsafe. by rewrite <- getValue_inside by lia.
        + intros r Hrr. by replace r with (Z.of_nat 0) by lia.
      - destruct (decide (getValue g col (Z.of_nat m) = Some Snow))
          as [Hup|Hup].
        + destruct (IH (Z.of_nat m) eq_refl ltac:(lia) Hup)
            as (top & Ht & Hfull & Hrun).
          exists top. split; [lia|]. split; [done|].
          intros r Hrr. destruct (decide (r = Z.of_nat (S m))) as [->|Hne];
            [done|]. apply Hrun. lia.
        + exists (Z.of_nat (S m)). split; [lia|]. split.
          * apply isCellFull_true. split; [lia|]. split.
            -- unfold getValueUnsafe. by rewrite <- getValue_inside by lia.
            -- right. unfold getValueUnsafe.
               replace (Z.of_nat (S m) - 1) with (Z.of_nat m) by lia.
               by rewrite <- getValue_inside by lia.
          * intros r Hrr. by replace r with (Z.of_nat (S m)) by lia. }
    apply (Hgen (Z.to_nat row) row); [lia | lia | done].
Qed.

Lemma isCellFull_top_of_run_witness :
  isCellFull snowy10 5 8 = false ∧
  ∃ top, 0 ≤ top ≤ 8 ∧ isCellFull snowy10 5 top = true.
Proof.
  assert (H7 : isCellFull snowy10 5 7 = true) by (vm_compute; reflexivity).
  assert (H8 : getValue snowy10 5 8 = Some Snow) by (vm_compute; reflexivity).
  split.
  - pose proof (proj1 (isCellFull_top_of_run snowy10 5 7) H7) as H.
    change (7 + 1) with 8 in H. exact H.
  - destruct (proj2 (isCellFull_top_of_run snowy10 5 8) H8)
      as (top & Ht & Hfull & _).
    exists top. split; [exact Ht | exact Hfull].
Defined.

(** ** Bounds-checked write *)

Lemma setValue_inside (g : SnowPile) (col row v : Z) :
  0 ≤ col < colCount g → 0 ≤ row < rowCount g →
  setValue g col row v =
  set_current g (wr (currentBuffer g) (row * colCount g + col) (wrap8 v)).
Proof.
  intros Hc Hr. unfold setValue, getIndex.
  destruct (col <? 0) eqn:H1; [lia|].
  destruct (col >=? colCount g) eqn:H2; [lia|].
  destruct (row <? 0) eqn:H3; [lia|].
  destruct (row >=? rowCount g) eqn:H4; [lia|].
  done.
Qed.

(** X8. [setValue] outside the grid changes nothing.  Inside the grid, on
    a buffer of [colCount * rowCount] cells, [getValue] at the same
    coordinates then returns the value written, as a byte; [getValue] at
    any other coordinates and the counts are as before. *)
Theorem setValue_getValue (g : SnowPile) (col row v : Z) :
  (¬ (0 ≤ col < colCount g ∧ 0 ≤ row < rowCount g) →
   setValue g col row v = g) ∧
  (0 ≤ col < colCount g ∧ 0 ≤ row < rowCount g →
   length (currentBuffer g) = Z.to_nat (colCount g * rowCount g) →
   getValue (setValue g col row v) col row = Some (v mod 256) ∧
   (∀ c r, (c, r) ≠ (col, row) →
           getValue (setValue g col row v) c r = getValue g c r) ∧
   columnCounts (setValue g col row v) = columnCounts g).
Proof.
  split.
  - intros Hout. unfold setValue.
    destruct (col <? 0) eqn:H1; [done|].
    destruct (col >=? colCount g) eqn:H2; [done|].
    destruct (row <? 0) eqn:H3; [done|].
    destruct (row >=? rowCount g) eqn:H4; [done|].
    exfalso. apply Hout. lia.
  - intros [Hc Hr] Hlen. rewrite (setValue_inside g col row v Hc Hr).
    split; [|split; [|done]].
    + rewrite getValue_inside by done. simpl.
      destruct (rd_in_range (currentBuffer g) (row * colCount g + col))
        as (w & Hw & _); [rewrite Hlen; nia|].
      by rewrite (rd_wr_eq _ _ _ _ Hw).
    + intros c r Hne.
      destruct (decide (0 ≤ c < colCount g ∧ 0 ≤ r < rowCount g))
        as [[Hc' Hr']|Hout].
      * rewrite !getValue_inside by done. simpl.
        apply rd_wr_ne. intros E.
        apply idx_inj in E as [-> ->]; [done | lia | lia].
      * by rewrite !getValue_outside.
Qed.

Lemma setValue_getValue_witness :
  setValue empty10 10 3 2 = empty10 ∧
  getValue (setValue empty10 4 3 258) 4 3 = Some 2.
Proof.
  assert (Hc : colCount empty10 = 10) by (vm_compute; reflexivity).
  assert (Hr : rowCount empty10 = 10) by (vm_compute; reflexivity).
  split.
  - apply (proj1 (setValue_getValue empty10 10 3 2)). rewrite Hc, Hr. lia.
  - destruct (proj2 (setValue_getValue empty10 4 3 258)) as [H _].
    + rewrite Hc, Hr. lia.
    + vm_compute. reflexivity.
    + exact H.
Defined.

(** ** Pixel coordinates to grid coordinates *)





(** ** What [resize] builds *)

Lemma mark_cell_frame (surfacePositions : list Rect) (col : Z) (g : SnowPile)
    (row : Z) :
  cellWidth (mark_cell surfacePositions col g row) = cellWidth g ∧
  colCount (mark_cell surfacePositions col g row) = colCount g ∧
  rowCount (mark_cell surfacePositions col g row) = rowCount g ∧
  nextBuffer (mark_cell surfacePositions col g row) = nextBuffer g ∧
  columnCounts (mark_cell surfacePositions col g row) = columnCounts g ∧
  length (currentBuffer (mark_cell surfacePositions col g row))
  = length (currentBuffer g).
Proof.
  unfold mark_cell. destruct (existsb _ _); [|done]. simpl.
  by rewrite length_wr.
Qed.

Lemma mark_cell_current (surfacePositions : list Rect) (col : Z)
    (g : SnowPile) (row : Z) :
  currentBuffer (mark_cell surfacePositions col g row) =
  if existsb (covers (cell_centre (cellWidth g) col)
                     (cell_centre (cellWidth g) row)) surfacePositions
  then wr (currentBuffer g) (row * colCount g + col) Blocker
  else currentBuffer g.
Proof.
  unfold mark_cell, cell_centre. by destruct (existsb _ _).
Qed.

Lemma resize_spec (cellSize : Q) (surfacePositions : list Rect)
    (w h : Q) :
  cellWidth (resize cellSize surfacePositions w h) = cellSize ∧
  colCount (resize cellSize surfacePositions w h) = Qceiling (w / cellSize) ∧
  rowCount (resize cellSize surfacePositions w h) = Qceiling (h / cellSize) ∧
  length (currentBuffer (resize cellSize surfacePositions w h))
  = Z.to_nat (Qceiling (w / cellSize) * Qceiling (h / cellSize)) ∧
  length (nextBuffer (resize cellSize surfacePositions w h))
  = Z.to_nat (Qceiling (w / cellSize) * Qceiling (h / cellSize)) ∧
  columnCounts (resize cellSize surfacePositions w h)
  = replicate (Z.to_nat (Qceiling (w / cellSize))) 0 ∧
  ∀ col row,
    0 ≤ col < Qceiling (w / cellSize) → 0 ≤ row < Qceiling (h / cellSize) →
    getValue (resize cellSize surfacePositions w h) col row =
    Some (if existsb (covers (cell_centre cellSize col)
                             (cell_centre cellSize row)) surfacePositions
          then Blocker else Empty).
Proof.
  unfold resize.
  set (C := Qceiling (w / cellSize)). set (R := Qceiling (h / cellSize)).
  set (g0 := {| cellWidth := cellSize;
                currentBuffer := replicate (Z.to_nat (C * R)) 0;
                nextBuffer := replicate (Z.to_nat (C * R)) 0;
                colCount := C; rowCount := R;
                columnCounts := replicate (Z.to_nat C) 0 |}).
  set (blocked := λ c r,
         existsb (covers (cell_centre cellSize c) (cell_centre cellSize r))
                 surfacePositions).
  set (F := λ a : SnowPile,
         cellWidth a = cellSize ∧ colCount a = C ∧ rowCount a = R ∧
         nextBuffer a = nextBuffer g0 ∧ columnCounts a = columnCounts g0 ∧
         length (currentBuffer a) = length (currentBuffer g0)).
  set (J := λ a : SnowPile, ∀ c r, 0 ≤ c < C → 0 ≤ r < R →
         rd (currentBuffer a) (r * C + c) = Some 0 ∨
         (rd (currentBuffer a) (r * C + c) = Some 2 ∧ blocked c r = true)).
  set (K := λ (c r : Z) (a : SnowPile),
         blocked c r = true → rd (currentBuffer a) (r * C + c) = Some 2).
  set (inner := λ (a : SnowPile) (c : Z),
         foldl (mark_cell surfacePositions c) a (seqZ 0 R)).
  assert (Hcell : ∀ a c r, 0 ≤ c < C → 0 ≤ r < R → F a ∧ J a →
            (F (mark_cell surfacePositions c a r) ∧
             J (mark_cell surfacePositions c a r)) ∧
            K c r (mark_cell surfacePositions c a r) ∧
            ∀ c' r', K c' r' a → K c' r' (mark_cell surfacePositions c a r)).
  { intros a c r Hc Hr [(Hw & Hcc & Hrc & Hn & Hk & Hl) HJ].
    destruct (mark_cell_frame surfacePositions c a r)
      as (Hw' & Hcc' & Hrc' & Hn' & Hk' & Hl').
    pose proof (mark_cell_current surfacePositions c a r) as Hcur.
    rewrite Hw, Hcc in Hcur. fold (blocked c r) in Hcur.
    split; [split|split].
    - unfold F. rewrite Hw', Hcc', Hrc', Hn', Hk', Hl'. done.
    - intros c1 r1 Hc1 Hr1. rewrite Hcur.
      destruct (blocked c r) eqn:Hb; [|by apply HJ].
      rewrite rd_wr. case_decide as E; [|by apply HJ].
      apply idx_inj in E as [Er Ec]; [|lia|lia]. subst r1 c1.
      right. split; [|done].
      by destruct (HJ c r Hc Hr) as [->|[-> _]].
    - intros Hb. rewrite Hcur, Hb.
      destruct (HJ c r Hc Hr) as [H0|[H2 _]]; by eapply rd_wr_eq.
    - intros c1 r1 HK Hb. specialize (HK Hb). rewrite Hcur.
      destruct (blocked c r); [|done].
      rewrite rd_wr. case_decide as E; [|done]. by rewrite E, HK. }
  assert (Hinner : ∀ a c, 0 ≤ c < C → F a ∧ J a →
            (F (inner a c) ∧ J (inner a c)) ∧
            (∀ r, 0 ≤ r < R → K c r (inner a c)) ∧
            ∀ c' r', K c' r' a → K c' r' (inner a c)).
  { intros a c Hc Ha. unfold inner.
    assert (Hinv : ∀ a' b, b ∈ seqZ 0 R → F a' ∧ J a' →
              F (mark_cell surfacePositions c a' b) ∧
              J (mark_cell surfacePositions c a' b)).
    { intros a' b Hb%elem_of_seqZ Ha'.
      destruct (Hcell a' c b) as [H1 _]; [done|lia|done|exact H1]. }
    split; [|split].
    - by apply (foldl_invariant (λ a', F a' ∧ J a')).
    - intros r Hr.
      assert (Hin : r ∈ seqZ 0 R) by (apply elem_of_seqZ; lia).
      refine (foldl_each (λ a', F a' ∧ J a') (λ r a', K c r a')
                (mark_cell surfacePositions c) (seqZ 0 R) a Ha Hinv _ _ r Hin).
      + intros a' b Hb%elem_of_seqZ Ha'.
        destruct (Hcell a' c b) as (_ & H2 & _); [done|lia|done|exact H2].
      + intros a' b b' Hb%elem_of_seqZ Ha' HK.
        destruct (Hcell a' c b) as (_ & _ & H3); [done|lia|done|].
        by apply H3.
    - intros c' r' HK.
      apply (foldl_invariant (λ a', (F a' ∧ J a') ∧ K c' r' a')); [done|].
      intros a' r Hr [Ha' HK']. split; [by apply Hinv|].
      apply elem_of_seqZ in Hr.
      destruct (Hcell a' c r) as (_ & _ & H3); [done|lia|done|].
      by apply H3. }
  assert (H0 : F g0 ∧ J g0).
  { split; [done|]. intros c r Hc Hr. left. unfold rd. simpl.
    destruct (r * C + c <? 0) eqn:E; [nia|].
    apply lookup_replicate_2. nia. }
  assert (Hall : (F (foldl inner g0 (seqZ 0 C)) ∧
                  J (foldl inner g0 (seqZ 0 C))) ∧
                 ∀ c, 0 ≤ c < C → ∀ r, 0 ≤ r < R →
                      K c r (foldl inner g0 (seqZ 0 C))).
  { assert (Hinv : ∀ a' b, b ∈ seqZ 0 C → F a' ∧ J a' →
              F (inner a' b) ∧ J (inner a' b)).
    { intros a' b Hb%elem_of_seqZ Ha'.
      destruct (Hinner a' b) as [H1 _]; [lia|done|exact H1]. }
    split.
    - by apply (foldl_invariant (λ a', F a' ∧ J a')).
    - intros c Hc.
      assert (Hin : c ∈ seqZ 0 C) by (apply elem_of_seqZ; lia).
      refine (foldl_each (λ a', F a' ∧ J a')
                (λ c a', ∀ r, 0 ≤ r < R → K c r a')
                inner (seqZ 0 C) g0 H0 Hinv _ _ c Hin).
      + intros a' b Hb%elem_of_seqZ Ha'.
        destruct (Hinner a' b) as (_ & H2 & _); [lia|done|exact H2].
      + intros a' b b' Hb%elem_of_seqZ Ha' HK r Hr.
        destruct (Hinner a' b) as (_ & _ & H3); [lia|done|].
        apply H3. by apply HK. }
  destruct Hall as [[(Hw & Hcc & Hrc & Hn & Hk & Hl) HJ] HK].
  fold inner. rewrite Hw, Hcc, Hrc, Hn, Hk, Hl. simpl.
  rewrite !length_replicate.
  repeat split; try done.
  intros col row Hc Hr. rewrite getValue_inside by (rewrite ?Hcc, ?Hrc; done).
  rewrite Hcc. fold (blocked col row).
  destruct (blocked col row) eqn:Hb.
  - by apply HK.
  - destruct (HJ col row Hc Hr) as [H|[_ H]]; [done | congruence].
Qed.



(** ** The surface map *)

Lemma num_min_spec (a b : Q) :
  (num_min a b <= a)%Q ∧ (num_min a b <= b)%Q ∧
  (num_min a b = a ∨ num_min a b = b).
Proof.
  unfold num_min. destruct (Qle_bool a b) eqn:E.
  - apply Qle_bool_iff in E. split; [apply Qle_refl|]. split; [done|by left].
  - assert (Hlt : (b < a)%Q).
    { apply Qnot_le_lt. intros H%Qle_bool_iff. congruence. }
    split; [by apply Qlt_le_weak|]. split; [apply Qle_refl|by right].
Qed.

Lemma column_top_spec (colX : Q) (surfacePositions : list Rect) :
  ∀ start,
    (column_top start colX surfacePositions <= start)%Q ∧
    (∀ s, s ∈ surfacePositions →
          (left s <= colX)%Q → (colX <= right s)%Q →
          (column_top start colX surfacePositions <= top s)%Q) ∧
    (column_top start colX surfacePositions = start ∨
     ∃ s, s ∈ surfacePositions ∧ (left s <= colX)%Q ∧ (colX <= right s)%Q ∧
          column_top start colX surfacePositions = top s).
Proof.
  unfold column_top.
  induction surfacePositions as [|s l IH]; intros start; simpl.
  - split; [apply Qle_refl|]. split; [|by left].
    intros s Hs. by apply elem_of_nil in Hs.
  - set (m := if Qle_bool (left s) colX && Qle_bool colX (right s)
              then num_min start (top s) else start).
    destruct (IH m) as (Hle & Hall & Hmin).
    assert (Hm : (m <= start)%Q ∧
                 ((left s <= colX)%Q → (colX <= right s)%Q → (m <= top s)%Q) ∧
                 (m = start ∨
                  ((left s <= colX)%Q ∧ (colX <= right s)%Q ∧ m = top s))).
    { subst m. destruct (num_min_spec start (top s)) as (H1 & H2 & H3).
      destruct (Qle_bool (left s) colX) eqn:El;
        destruct (Qle_bool colX (right s)) eqn:Er; simpl.
      - apply Qle_bool_iff in El, Er. split; [done|]. split; [done|].
        destruct H3 as [->| ->]; [by left | by right].
      - split; [apply Qle_refl|]. split; [|by left].
        intros _ H%Qle_bool_iff. congruence.
      - split; [apply Qle_refl|]. split; [|by left].
        intros H%Qle_bool_iff. congruence.
      - split; [apply Qle_refl|]. split; [|by left].
        intros H%Qle_bool_iff. congruence. }
    destruct Hm as (Hm1 & Hm2 & Hm3).
    split; [by eapply Qle_trans|]. split.
    + intros s' [->|Hs']%elem_of_cons Hl Hr.
      * eapply Qle_trans; [exact Hle | by apply Hm2].
      * by apply Hall.
    + destruct Hmin as [E|(s' & Hs' & Hl & Hr & E)].
      * destruct Hm3 as [E'|(Hl & Hr & E')].
        -- left. congruence.
        -- right. exists s. split; [apply list_elem_of_here|].
           split; [done|]. split; [done|]. congruence.
      * right. exists s'. split; [by apply list_elem_of_further|]. done.
Qed.



(** ** Collision with the pile *)

Lemma isCellFull_in_grid (g : SnowPile) (col row : Z) :
  0 ≤ col < colCount g → 0 ≤ row < rowCount g →
  isCellFull g col row = true ↔
  getValue g col row = Some Snow ∧
  (row = 0 ∨ getValue g col (row - 1) ≠ Some Snow).
Proof.
  intros Hc Hr. rewrite isCellFull_true. unfold getValueUnsafe.
  rewrite getValue_inside by done.
  destruct (decide (row = 0)) as [->|Hne]; [tauto|].
  rewrite (getValue_inside g col (row - 1)) by lia. tauto.
Qed.

(** X12. Without a pile [nodeCollideWithSnowPile] is false.  With one, on
    a grid with a column and a row, it is true exactly when the cell that
    [getCoords] gives for the point is [Snow] and is in row 0 or lies below
    a cell that is not [Snow].  A point above the canvas is tested against
    row 0: it collides exactly when the cell of its column there is
    [Snow]. *)
Theorem nodeCollideWithSnowPile_top (g : SnowPile) (x y : Q) :
  nodeCollideWithSnowPile false g x y = false ∧
  (1 ≤ colCount g → 1 ≤ rowCount g →
   (nodeCollideWithSnowPile true g x y = true ↔
    getValue g (getCoords g x y).1 (getCoords g x y).2 = Some Snow ∧
    ((getCoords g x y).2 = 0 ∨
     getValue g (getCoords g x y).1 ((getCoords g x y).2 - 1) ≠ Some Snow)) ∧
   ((0 < cellWidth g)%Q → (y < 0)%Q →
    (nodeCollideWithSnowPile true g x y = true ↔
     getValue g (getCoords g x y).1 0 = Some Snow))).
Proof.
  split; [done|]. intros Hcols Hrows.
  assert (Hin : 0 ≤ (getCoords g x y).1 < colCount g ∧
                0 ≤ (getCoords g x y).2 < rowCount g).
  { unfold getCoords. simpl. lia. }
  destruct Hin as [Hc Hr].
  assert (Hiff := isCellFull_in_grid g _ _ Hc Hr).
  split; [exact Hiff|].
  intros Hw Hy.
  assert (Hrow : (getCoords g x y).2 = 0).
  { assert (Hq : (y / cellWidth g < 0)%Q).
    { apply Qlt_shift_div_r; [done|]. by rewrite Qmult_0_l. }
    assert (Hf : Qfloor (y / cellWidth g) < 0).
    { rewrite Zlt_Qlt. eapply Qle_lt_trans; [apply Qfloor_le | done]. }
    unfold getCoords. cbv zeta. cbn [snd]. lia. }
  unfold nodeCollideWithSnowPile in *. simpl in *.
  rewrite Hiff, Hrow. tauto.
Qed.

Lemma nodeCollideWithSnowPile_top_witness :
  nodeCollideWithSnowPile true snowy10 (11 # 2) (15 # 2) = true ∧
  nodeCollideWithSnowPile true snowy10 (11 # 2) (-10) = false.
Proof.
  assert (Hc : colCount snowy10 = 10) by (vm_compute; reflexivity).
  assert (Hr : rowCount snowy10 = 10) by (vm_compute; reflexivity).
  destruct (nodeCollideWithSnowPile_top snowy10 (11 # 2) (15 # 2))
    as [_ H1].
  destruct (nodeCollideWithSnowPile_top snowy10 (11 # 2) (-10)) as [_ H2].
  destruct H1 as [H1 _]; [rewrite Hc; lia | rewrite Hr; lia |].
  destruct H2 as [_ H2]; [rewrite Hc; lia | rewrite Hr; lia |].
  split.
  - apply H1. split; [vm_compute; reflexivity|].
    right. vm_compute. discriminate.
  - apply not_true_is_false. intros Hhit.
    apply H2 in Hhit; [|vm_compute; reflexivity|vm_compute; reflexivity].
    vm_compute in Hhit. discriminate.
Defined.

(** ** What a cascade does to a column *)


Section Cascade.

Variables cols col gapRow : Z.
Hypothesis Hcol : 0 ≤ col < cols.



End Cascade.



(** ** A pile at rest *)

(** X14. When every [Snow] cell above the last row lies directly on a
    [Blocker], and the last row holds no [Snow] or the bottom collects,
    [update] leaves the cells and the counts as they are, whatever the
    configuration, and draws no random number.  A grid without [Snow] is
    the first instance. *)
Theorem update_at_rest (cfg : Config) (random : nat → Q) (g : SnowPile) :
  (∀ col row, 0 ≤ col < colCount g → 0 ≤ row < rowCount g - 1 →
     rd (currentBuffer g) (row * colCount g + col) = Some Snow →
     rd (currentBuffer g) ((row + 1) * colCount g + col) = Some Blocker) →
  (collectAtBottom cfg = true ∨
   ∀ col, 0 ≤ col < colCount g →
     rd (currentBuffer g) ((rowCount g - 1) * colCount g + col) ≠ Some Snow) →
  currentBuffer (update cfg random g) = currentBuffer g ∧
  columnCounts (update cfg random g) = columnCounts g ∧
  nextBuffer (update cfg random g) = currentBuffer g ∧
  p_draws (physics cfg random g) = O.
Proof.
  intros Hrest Hbottom.
  assert (Hphys : physics cfg random g =
            {| p_next := currentBuffer g; p_counts := columnCounts g;
               p_cascade := []; p_draws := O; p_log := [] |}).
  { unfold physics. apply foldl_fixed.
    intros row Hrow%elem_of_reverse%elem_of_seqZ. unfold process_row.
    destruct (isRowFull g row); [done|].
    apply foldl_fixed. intros col Hcol%elem_of_seqZ. unfold process_cell.
    destruct (is_val (rd _ (row * _ + col)) 1) eqn:Hcell; [|done]. simpl.
    apply is_val_true in Hcell.
    rewrite (Hrest col row) by (done || lia). done. }
  assert (Hsettled : settled cfg random g = (currentBuffer g, columnCounts g)).
  { unfold settled. by rewrite Hphys. }
  assert (Hdrain : collectAtBottom cfg = false →
            drain g (currentBuffer g, columnCounts g)
            = (currentBuffer g, columnCounts g)).
  { intros Hcfg. destruct Hbottom as [Hb|Hb]; [congruence|].
    unfold drain. apply foldl_fixed.
    intros col Hcol%elem_of_seqZ. unfold drain_cell. simpl.
    destruct (is_val _ 1) eqn:E; [|done].
    apply is_val_true in E. exfalso. apply (Hb col); [lia | done]. }
  split; [|split; [|split]].
  - unfold update. rewrite Hsettled.
    destruct (collectAtBottom cfg) eqn:Hcfg; [done|]. by rewrite Hdrain.
  - unfold update. rewrite Hsettled.
    destruct (collectAtBottom cfg) eqn:Hcfg; [done|]. by rewrite Hdrain.
  - done.
  - by rewrite Hphys.
Qed.

Lemma update_at_rest_witness :
  currentBuffer (update CONFIG gust (add CONFIG shelf10 1 8))
  = currentBuffer (add CONFIG shelf10 1 8).
Proof.
  assert (Hc : colCount (add CONFIG shelf10 1 8) = 10)
    by (vm_compute; reflexivity).
  assert (Hr : rowCount (add CONFIG shelf10 1 8) = 10)
    by (vm_compute; reflexivity).
  assert (Hblock : rd (currentBuffer (add CONFIG shelf10 1 8)) 81
                   = Some Blocker) by (vm_compute; reflexivity).
  assert (Hb : forallb (λ j, (j =? 71) ||
            negb (is_val (rd (currentBuffer (add CONFIG shelf10 1 8)) j)
                         Snow)) (seqZ 0 100) = true)
    by (vm_compute; reflexivity).
  apply (update_at_rest CONFIG gust (add CONFIG shelf10 1 8)).
  - rewrite Hc, Hr.
    revert Hblock Hb. generalize (currentBuffer (add CONFIG shelf10 1 8)).
    intros buf Hblock Hb col row Hcol Hrow Hv.
    rewrite forallb_forall in Hb.
    specialize (Hb (row * 10 + col)).
    rewrite <- list_elem_of_In, elem_of_seqZ in Hb.
    specialize (Hb ltac:(lia)).
    apply orb_true_iff in Hb as [Hb|Hb].
    + assert (col = 1 ∧ row = 7) as [-> ->] by lia. exact Hblock.
    + apply negb_true_iff, is_val_false in Hb. contradiction.
  - right. rewrite Hc, Hr.
    revert Hb. generalize (currentBuffer (add CONFIG shelf10 1 8)).
    intros buf Hb col Hcol Hv.
    rewrite forallb_forall in Hb.
    specialize (Hb ((10 - 1) * 10 + col)).
    rewrite <- list_elem_of_In, elem_of_seqZ in Hb.
    specialize (Hb ltac:(lia)).
    apply orb_true_iff in Hb as [Hb|Hb]; [lia|].
    apply negb_true_iff, is_val_false in Hb. contradiction.
Defined.

(** ** Gravity in the main pass *)

(** The stores issued for one cell, as in [process_cell_log], with their
    effect on the write buffer. *)
Lemma process_cell_stores (cfg : Config) (random : nat → Q) (g : SnowPile)
    (row : Z) (s : Pass) (col : Z) :
  ∃ ws,
    p_log (process_cell cfg random g row s col) = p_log s ++ ws ∧
    p_next (process_cell cfg random g row s col) = replay (p_next s) ws ∧
    (ws = [] ∨
     (∃ dst,
        ws = [ {| w_src := row * colCount g + col; w_dst := dst;
                  w_val := Snow |};
               {| w_src := row * colCount g + col;
                  w_dst := row * colCount g + col; w_val := Empty |} ] ∧
        rd (currentBuffer g) dst = Some Empty ∧
        rd (currentBuffer g) (row * colCount g + col) = Some Snow) ∨
     (ws = [ {| w_src := row * colCount g + col;
                w_dst := row * colCount g + col; w_val := Empty |} ] ∧
      rd (currentBuffer g) (row * colCount g + col) = Some Snow)).
Proof.
  unfold process_cell.
  destruct (is_val (rd _ (row * _ + col)) 1) eqn:Hcell; simpl;
    [|exists []; by rewrite app_nil_r; auto].
  apply is_val_true in Hcell.
  destruct (is_val _ 0) eqn:Hbelow.
  { apply is_val_true in Hbelow. eexists. simpl. rewrite <- app_assoc.
    split; [done|]. split; [done|]. right. left. by eexists. }
  destruct (is_val _ 2); [exists []; by rewrite app_nil_r; auto|].
  unfold spread_or_decay.
  assert (Hd : p_log (draw random s).2 = p_log s ∧
               p_next (draw random s).2 = p_next s) by done.
  destruct (draw random s) as [r s1]. simpl in Hd. destruct Hd as [Hd Hn].
  destruct (_ && (_ <? _)).
  - set (l := (0 <? col) && _). set (rt := (col <? colCount g - 1) && _).
    destruct (choose_dir_spec random l rt s1) as [Hs2 Hdir].
    destruct (choose_dir random l rt s1) as [dir s2]. simpl in Hs2, Hdir.
    assert (H2 : p_log s2 = p_log s ∧ p_next s2 = p_next s).
    { destruct Hs2 as [->| ->]; [done | by simpl]. }
    destruct H2 as [H2 H2n].
    destruct (dir =? 0) eqn:E0.
    { exists []. rewrite app_nil_r. by auto. }
    eexists. simpl. rewrite <- app_assoc, H2, H2n.
    split; [done|]. split; [done|].
    right. left. eexists. split; [done|]. split; [|done].
    destruct Hdir as [->|[[-> Hl]|[-> Hr]]]; [done| |].
    + subst l. apply andb_true_iff in Hl as [_ Hl].
      apply is_val_true in Hl.
      replace (row * colCount g + col + -1) with (row * colCount g + col - 1)
        by lia. exact Hl.
    + subst rt. apply andb_true_iff in Hr as [_ Hr].
      by apply is_val_true in Hr.
  - assert (Hd2 : p_log (draw random s1).2 = p_log s ∧
                  p_next (draw random s1).2 = p_next s) by done.
    destruct (draw random s1) as [r3 s3]. simpl in Hd2.
    destruct Hd2 as [Hd2 Hn2].
    destruct (Qlt_bool r3 _).
    + eexists. simpl. rewrite Hd2, Hn2. split; [done|]. split; [done|].
      right. right. done.
    + exists []. rewrite app_nil_r. by auto.
Qed.

Lemma rd_wr_keep (b : list Z) (i j v : Z) :
  rd b j = Some v → rd (wr b i v) j = Some v.
Proof. intros H. rewrite rd_wr. case_decide; [subst; by rewrite H | done]. Qed.

(** A cell that holds [Snow] in the active buffer never receives [Snow]
    in the pass and a cell that is [Empty] there is never cleared: once a
    cell has fallen, the two cells keep their new values. *)
Lemma process_cell_keeps_fall (cfg : Config) (random : nat → Q)
    (g : SnowPile) (I B : Z) (row : Z) (s : Pass) (col : Z) :
  rd (currentBuffer g) I = Some Snow → rd (currentBuffer g) B = Some Empty →
  rd (p_next s) I = Some Empty ∧ rd (p_next s) B = Some Snow →
  rd (p_next (process_cell cfg random g row s col)) I = Some Empty ∧
  rd (p_next (process_cell cfg random g row s col)) B = Some Snow.
Proof.
  intros HI HB [H1 H2].
  destruct (process_cell_stores cfg random g row s col)
    as (ws & _ & -> & [->|[(dst & -> & Hdst & Hsrc)|[-> Hsrc]]]).
  - done.
  - assert (Hd : dst ≠ I) by (intros ->; rewrite HI in Hdst; discriminate).
    assert (Hs : row * colCount g + col ≠ B)
      by (intros E; rewrite E, HB in Hsrc; discriminate).
    unfold replay. simpl. split.
    + apply rd_wr_keep. by rewrite rd_wr_ne.
    + rewrite rd_wr_ne by done. by apply rd_wr_keep.
  - assert (Hs : row * colCount g + col ≠ B)
      by (intros E; rewrite E, HB in Hsrc; discriminate).
    unfold replay. simpl. split.
    + by apply rd_wr_keep.
    + by rewrite rd_wr_ne.
Qed.

(** X15. In the main pass of [update], a [Snow] cell above the last row
    whose row is not completely full and whose cell below is [Empty] falls
    one row: in the write buffer the cell is [Empty] and the cell below is
    [Snow] when the pass ends, whatever the draws. *)
Theorem snow_falls_one_row (cfg : Config) (random : nat → Q) (g : SnowPile)
    (col row : Z) :
  0 ≤ col < colCount g → 0 ≤ row < rowCount g - 1 →
  isRowFull g row = false →
  rd (currentBuffer g) (row * colCount g + col) = Some Snow →
  rd (currentBuffer g) ((row + 1) * colCount g + col) = Some Empty →
  rd (p_next (physics cfg random g)) (row * colCount g + col) = Some Empty ∧
  rd (p_next (physics cfg random g)) ((row + 1) * colCount g + col)
  = Some Snow.
Proof.
  intros Hcol Hrow Hfull HI HB.
  set (I := row * colCount g + col). set (B := (row + 1) * colCount g + col).
  fold I in HI. fold B in HB.
  set (P := λ s : Pass, length (p_next s) = length (currentBuffer g)).
  set (Q := λ s : Pass, rd (p_next s) I = Some Empty ∧
                        rd (p_next s) B = Some Snow).
  assert (HP : ∀ s r c, P s → P (process_cell cfg random g r s c)).
  { intros s r c Hs.
    apply (process_cell_preserves P); try done.
    intros src dst v s' Hs'. unfold P in *. simpl. by rewrite length_wr. }
  assert (HProw : ∀ s r, P s → P (process_row cfg random g s r)).
  { intros s r Hs. unfold process_row. destruct (isRowFull g r); [done|].
    apply foldl_invariant; [done|]. intros s' c _. apply HP. }
  assert (HQrow : ∀ s r, Q s → Q (process_row cfg random g s r)).
  { intros s r Hs. unfold process_row. destruct (isRowFull g r); [done|].
    apply foldl_invariant; [done|]. intros s' c _.
    by apply process_cell_keeps_fall. }
  assert (Hown : ∀ s, P s → Q (process_cell cfg random g row s col)).
  { intros s Hs. unfold process_cell. fold I B.
    rewrite HI, HB. simpl. unfold Q, P in *.
    assert (HIn : is_Some (rd (p_next s) I)).
    { apply rd_Some_range in HI. rewrite <- Hs in HI.
      destruct (rd_in_range _ _ HI) as (v & Hv & _). by exists v. }
    assert (HBn : is_Some (rd (p_next s) B)).
    { apply rd_Some_range in HB. rewrite <- Hs in HB.
      destruct (rd_in_range _ _ HB) as (v & Hv & _). by exists v. }
    destruct HIn as [vI HvI]. destruct HBn as [vB HvB].
    assert (HIB : B ≠ I) by (unfold I, B; nia).
    unfold store. cbn [p_next]. split.
    - eapply rd_wr_eq. rewrite rd_wr_ne by done. exact HvI.
    - rewrite rd_wr_ne by done. by eapply rd_wr_eq. }
  unfold physics.
  refine (foldl_each P (λ r s, r = row → Q s) (process_row cfg random g)
            (reverse (seqZ 0 (rowCount g - 1))) _ _ _ _ _ row _ eq_refl).
  - done.
  - intros s r _. apply HProw.
  - intros s r _ Hs ->. unfold process_row. rewrite Hfull.
    assert (Hin : col ∈ seqZ 0 (colCount g)) by (apply elem_of_seqZ; lia).
    refine (foldl_each P (λ c s', c = col → Q s')
              (process_cell cfg random g row) (seqZ 0 (colCount g))
              s Hs _ _ _ col Hin eq_refl).
    + intros s' c _. apply HP.
    + intros s' c _ Hs' ->. by apply Hown.
    + intros s' c c' _ _ HQ Hc'. apply process_cell_keeps_fall; try done.
      by apply HQ.
  - intros s r r' _ _ HQ Hr'. apply HQrow. by apply HQ.
  - apply elem_of_reverse, elem_of_seqZ. lia.
Qed.

Lemma snow_falls_one_row_witness :
  rd (p_next (physics CONFIG calm (add CONFIG empty10 5 3))) 35 = Some Empty ∧
  rd (p_next (physics CONFIG calm (add CONFIG empty10 5 3))) 45 = Some Snow.
Proof.
  assert (Hc : colCount (add CONFIG empty10 5 3) = 10)
    by (vm_compute; reflexivity).
  assert (Hr : rowCount (add CONFIG empty10 5 3) = 10)
    by (vm_compute; reflexivity).
  pose proof (snow_falls_one_row CONFIG calm (add CONFIG empty10 5 3) 5 3)
    as H.
  rewrite Hc, Hr in H. change (3 * 10 + 5) with 35 in H.
  change ((3 + 1) * 10 + 5) with 45 in H.
  apply H; [lia | lia | vm_compute; reflexivity | vm_compute; reflexivity
           | vm_compute; reflexivity].
Defined.

(** X16. The main pass of [update] skips a completely full row: every
    cell of such a row is still [Snow] in the write buffer when the pass
    ends, whatever lies below the row and whatever the draws. *)
Theorem full_row_frozen (cfg : Config) (random : nat → Q) (g : SnowPile)
    (col row : Z) :
  isRowFull g row = true → 0 ≤ col < colCount g →
  rd (currentBuffer g) (row * colCount g + col) = Some Snow ∧
  rd (p_next (physics cfg random g)) (row * colCount g + col) = Some Snow.
Proof.
  intros Hfull Hcol.
  assert (HI : rd (currentBuffer g) (row * colCount g + col) = Some Snow).
  { unfold isRowFull in Hfull. rewrite forallb_forall in Hfull.
    apply is_val_true, Hfull, list_elem_of_In, elem_of_seqZ. lia. }
  split; [done|]. unfold physics.
  apply (foldl_invariant
           (λ s, rd (p_next s) (row * colCount g + col) = Some Snow));
    [done|].
  intros s r _ Hs. unfold process_row.
  destruct (isRowFull g r) eqn:Hr; [done|].
  apply foldl_invariant; [done|].
  intros s' c Hc%elem_of_seqZ Hs'.
  destruct (process_cell_stores cfg random g r s' c)
    as (ws & _ & -> & [->|[(dst & -> & Hdst & Hsrc)|[-> Hsrc]]]).
  - done.
  - assert (Hne : r * colCount g + c ≠ row * colCount g + col).
    { intros E. apply idx_inj in E as [-> _]; [congruence | lia | lia]. }
    unfold replay. simpl. rewrite rd_wr_ne by done. by apply rd_wr_keep.
  - assert (Hne : r * colCount g + c ≠ row * colCount g + col).
    { intros E. apply idx_inj in E as [-> _]; [congruence | lia | lia]. }
    unfold replay. simpl. by rewrite rd_wr_ne.
Qed.

Lemma full_row_frozen_witness :
  rd (currentBuffer (add CONFIG tiny 0 0)) 1 = Some Empty ∧
  rd (p_next (physics CONFIG calm (add CONFIG tiny 0 0))) 0 = Some Snow.
Proof.
  split; [vm_compute; reflexivity|].
  assert (Hc : colCount (add CONFIG tiny 0 0) = 1)
    by (vm_compute; reflexivity).
  pose proof (full_row_frozen CONFIG calm (add CONFIG tiny 0 0) 0 0) as H.
  rewrite Hc in H. change (0 * 1 + 0) with 0 in H.
  apply H; [vm_compute; reflexivity | lia].
Defined.

(** ** Sizes through any sequence of calls *)

(** X17. Any sequence of [add], [update], [clearRow] and [clearAllSnow]
    calls, with any draws, keeps the grid dimensions and keeps a
    well-formed pile well-formed: both buffers keep [colCount * rowCount]
    cells and there is one count for each column. *)
Theorem calls_keep_shape (cfg : Config) (g : SnowPile) (cs : list Call) :
  colCount (calls cfg g cs) = colCount g ∧
  rowCount (calls cfg g cs) = rowCount g ∧
  (wf g →
   length (currentBuffer (calls cfg g cs))
   = Z.to_nat (colCount g * rowCount g) ∧
   length (nextBuffer (calls cfg g cs)) = Z.to_nat (colCount g * rowCount g) ∧
   length (columnCounts (calls cfg g cs)) = Z.to_nat (colCount g)).
Proof.
  destruct (calls_dims cfg cs g) as [Hc Hr].
  split; [done|]. split; [done|]. intros Hwf.
  destruct (calls_wf cfg cs g Hwf) as (_ & _ & H3 & H4 & H5).
  rewrite Hc, Hr in *. rewrite H4. done.
Qed.

Lemma calls_keep_shape_witness :
  length (currentBuffer (calls CONFIG empty10 storm)) = 100%nat.
Proof.
  destruct resized_counts_ok as [[Hwf _] _].
  destruct (calls_keep_shape CONFIG empty10 storm) as (_ & _ & H).
  destruct (H Hwf) as [H1 _].
  assert (Hc : colCount empty10 = 10) by (vm_compute; reflexivity).
  assert (Hr : rowCount empty10 = 10) by (vm_compute; reflexivity).
  rewrite Hc, Hr in H1. exact H1.
Defined.

(** ** What a flake does to the pile *)

Lemma add_search_result (g : SnowPile) (col : Z) (n : nat) :
  add_search g col n = g ∨
  ∃ r, 0 ≤ r < Z.of_nat n ∧ getValueUnsafe g col r = Some Empty ∧
       add_search g col n =
       set_counts (setValueUnsafe g col r Snow) (incr (columnCounts g) col).
Proof.
  induction n as [|m IH]; [by left|]. simpl.
  destruct (is_val _ 0) eqn:E.
  - apply is_val_true in E. right. exists (Z.of_nat m). split; [lia|]. done.
  - destruct IH as [IH|(r & Hr & Hcell & IH)]; [by left|right].
    exists r. split; [lia|]. done.
Qed.

Lemma add_result (cfg : Config) (g : SnowPile) (col baseRow : Z) :
  add cfg g col baseRow = g ∨
  ∃ r, 0 ≤ r < rowCount g ∧ getValueUnsafe g col r = Some Empty ∧
       add cfg g col baseRow =
       set_counts (setValueUnsafe g col r Snow) (incr (columnCounts g) col).
Proof.
  unfold add. destruct (bottom_guard cfg g baseRow); [by left|].
  destruct (add_search_result g col
              (Z.to_nat (Z.min baseRow (rowCount g - 1) + 1)))
    as [H|(r & Hr & Hcell & H)]; [by left|right].
  exists r. split; [lia|]. done.
Qed.

Lemma offset_range (r : Q) :
  (0 <= r)%Q → (r < 1)%Q → -1 ≤ Qfloor (r * 3) - 1 ≤ 1.
Proof.
  intros H0 H1.
  assert (Hlo : 0 ≤ Qfloor (r * 3)).
  { rewrite <- (Qfloor_Z 0). apply Qfloor_resp_le.
    apply Qmult_le_0_compat; [done | discriminate]. }
  assert (Hhi : Qfloor (r * 3) < 3).
  { rewrite Zlt_Qlt. eapply Qle_lt_trans; [apply Qfloor_le|].
    assert (E : (inject_Z 3 == 1 * 3)%Q) by reflexivity.
    rewrite E. by apply Qmult_lt_r. }
  lia.
Qed.

(** X18. One [update] of a flake leaves the pile as it is or adds one
    [Snow] cell: into a cell of the grid that was [Empty], in the column of
    the moved flake or, after a collision, in a neighbour of it; the count
    of that column is incremented.  Without a pile ([hasPile] false) the
    pile is never changed.  A well-formed pile with exact counts stays so.
    This holds for every value of [Math.sin]. *)
Theorem flake_adds_at_most_one (cfg : Config) (hasPile : bool) (sin : Q → Q)
    (random : nat → Q) (surfacePositions : list Rect) (surfaceMap : list Q)
    (canvasWidth canvasHeight : Q) (pile : SnowPile) (f : Snowflake.t) :
  1 ≤ colCount pile →
  (0 <= random 0%nat)%Q → (random 0%nat < 1)%Q →
  (hasPile = false →
   (Snowflake.update cfg hasPile sin random surfacePositions surfaceMap
                     canvasWidth canvasHeight pile f).1 = pile) ∧
  ((Snowflake.update cfg hasPile sin random surfacePositions surfaceMap
                     canvasWidth canvasHeight pile f).1 = pile ∨
   ∃ c r,
     0 ≤ c < colCount pile ∧ 0 ≤ r < rowCount pile ∧
     (getCoords pile (Snowflake.x (Snowflake.move sin f))
                     (Snowflake.y (Snowflake.move sin f))).1 - 1 ≤ c ∧
     c ≤ (getCoords pile (Snowflake.x (Snowflake.move sin f))
                         (Snowflake.y (Snowflake.move sin f))).1 + 1 ∧
     getValue pile c r = Some Empty ∧
     (Snowflake.update cfg hasPile sin random surfacePositions surfaceMap
                       canvasWidth canvasHeight pile f).1 =
     set_counts (setValueUnsafe pile c r Snow)
                (incr (columnCounts pile) c)) ∧
  (wf pile → counts_ok pile →
   wf (Snowflake.update cfg hasPile sin random surfacePositions surfaceMap
                        canvasWidth canvasHeight pile f).1 ∧
   counts_ok (Snowflake.update cfg hasPile sin random surfacePositions
                               surfaceMap canvasWidth canvasHeight pile f).1).
Proof.
  intros Hcols Hr0 Hr1.
  set (f' := Snowflake.move sin f).
  set (col := (getCoords pile (Snowflake.x f') (Snowflake.y f')).1).
  assert (Hcol : 0 ≤ col < colCount pile).
  { unfold col, getCoords. cbv zeta. cbn [fst]. lia. }
  pose proof (offset_range (random 0%nat) Hr0 Hr1) as Hoff.
  set (targetCol := Z.max 0 (Z.min (col + (Qfloor (random 0%nat * 3) - 1))
                                   (colCount pile - 1))).
  assert (Htarget : 0 ≤ targetCol < colCount pile ∧
                    col - 1 ≤ targetCol ≤ col + 1) by (unfold targetCol; lia).
  assert (Hshape : ∃ c baseRow, (0 ≤ c < colCount pile ∧ col - 1 ≤ c ≤ col + 1)
            ∧ ((Snowflake.update cfg hasPile sin random surfacePositions
                  surfaceMap canvasWidth canvasHeight pile f).1 = pile ∨
               (hasPile = true ∧
                (Snowflake.update cfg hasPile sin random surfacePositions
                   surfaceMap canvasWidth canvasHeight pile f).1
                = add cfg pile c baseRow))).
  { unfold Snowflake.update. fold f'. fold col. fold targetCol.
    destruct (_ || _).
    - destruct hasPile; [|exists col, 0; split; [lia|by left]].
      destruct (surfaceMap !! Z.to_nat col) as [surfaceY|].
      + exists targetCol. eexists. split; [done|]. right. by split.
      + exists col, 0. split; [lia|by left].
    - destruct (Qlt_bool canvasHeight (Snowflake.y f')).
      + destruct hasPile; [|exists col, 0; split; [lia|by left]].
        exists col. eexists. split; [lia|]. right. by split.
      + exists col, 0. split; [lia|by left]. }
  destruct Hshape as (c & baseRow & [Hc Hnear] & Hres).
  split; [|split].
  - intros ->. by destruct Hres as [H|[H _]].
  - destruct Hres as [H|[_ H]]; [by left|].
    destruct (add_result cfg pile c baseRow) as [E|(r & Hr & Hcell & E)].
    + left. congruence.
    + right. exists c, r. repeat split; try lia.
      * by rewrite getValue_inside by done.
      * congruence.
  - intros Hwf Hok. destruct Hres as [->|[_ ->]]; [done|]. split.
    + apply (call_wf cfg pile (CallAdd c baseRow) Hwf).
    + by apply add_counts_ok.
Qed.

Lemma flake_adds_at_most_one_witness :
  getValue (Snowflake.update CONFIG true unit_sin gust [shelf] shelf_map
                             10 10 twin10 flake0).1 0 5 = Some Snow ∧
  counts_ok (Snowflake.update CONFIG true unit_sin gust [shelf] shelf_map
                              10 10 twin10 flake0).1.
Proof.
  split; [vm_compute; reflexivity|].
  assert (Hwf : wf twin10).
  { apply calls_wf. apply resized_counts_ok. }
  assert (Hok : counts_ok twin10).
  { apply counts_exact_iff. vm_compute. reflexivity. }
  assert (Hc : colCount twin10 = 10) by (vm_compute; reflexivity).
  destruct (flake_adds_at_most_one CONFIG true unit_sin gust [shelf]
              shelf_map 10 10 twin10 flake0) as (_ & _ & H).
  - rewrite Hc. lia.
  - vm_compute. discriminate.
  - vm_compute. reflexivity.
  - exact (proj2 (H Hwf Hok)).
Defined.

Lemma floor_of_ceiling (q : Q) : Qceiling q - 1 ≤ Qfloor q.
Proof.
  assert (H : Qceiling q - 1 < Qfloor q + 1).
  { rewrite Zlt_Qlt. eapply Qlt_trans; [apply Qceiling_lt | apply Qlt_floor]. }
  lia.
Qed.

Lemma add_at_canvas_bottom (cfg : Config) (pile : SnowPile) (c : Z)
    (x canvasHeight : Q) :
  collectAtBottom cfg = false →
  rowCount pile = Qceiling (canvasHeight / cellWidth pile) →
  add cfg pile c (getCoords pile x canvasHeight).2 = pile.
Proof.
  intros Hcfg Hrows.
  pose proof (floor_of_ceiling (canvasHeight / cellWidth pile)) as Hfl.
  rewrite <- Hrows in Hfl.
  assert (Hrow : (getCoords pile x canvasHeight).2
                 = Z.max 0 (rowCount pile - 1)).
  { unfold getCoords. cbv zeta. cbn [snd]. lia. }
  rewrite Hrow. unfold add, bottom_guard. rewrite Hcfg. simpl.
  destruct (Z.max 0 (rowCount pile - 1) =? rowCount pile - 1) eqn:E; [done|].
  apply Z.eqb_neq in E.
  replace (Z.to_nat (Z.min (Z.max 0 (rowCount pile - 1)) (rowCount pile - 1)
                     + 1)) with O by lia.
  done.
Qed.

(** X19. With bottom accumulation disabled and a grid whose number of
    rows is the one [resize] computes from [canvas.height], a flake whose
    column has no surface above the canvas bottom (its entry of the surface
    map is [canvas.height], or is missing) never changes the pile: neither
    when it hits something nor when it leaves the canvas. *)
Theorem flake_without_surface (cfg : Config) (hasPile : bool) (sin : Q → Q)
    (random : nat → Q) (surfacePositions : list Rect) (surfaceMap : list Q)
    (canvasWidth canvasHeight : Q) (pile : SnowPile) (f : Snowflake.t) :
  collectAtBottom cfg = false →
  rowCount pile = Qceiling (canvasHeight / cellWidth pile) →
  (∀ surfaceY,
     surfaceMap !! Z.to_nat (getCoords pile
                               (Snowflake.x (Snowflake.move sin f))
                               (Snowflake.y (Snowflake.move sin f))).1
     = Some surfaceY → surfaceY = canvasHeight) →
  (Snowflake.update cfg hasPile sin random surfacePositions surfaceMap
                    canvasWidth canvasHeight pile f).1 = pile.
Proof.
  intros Hcfg Hrows Hmap. unfold Snowflake.update.
  set (f' := Snowflake.move sin f) in *.
  set (col := (getCoords pile (Snowflake.x f') (Snowflake.y f')).1) in *.
  destruct (_ || _).
  - destruct hasPile; [|done].
    destruct (surfaceMap !! Z.to_nat col) as [surfaceY|] eqn:E; [|done].
    rewrite (Hmap surfaceY eq_refl). cbn [fst].
    exact (add_at_canvas_bottom cfg pile _ (Snowflake.x f') canvasHeight
             Hcfg Hrows).
  - destruct (Qlt_bool canvasHeight (Snowflake.y f')); [|done].
    destruct hasPile; [|done]. cbn [fst].
    exact (add_at_canvas_bottom cfg pile _ (Snowflake.x f') canvasHeight
             Hcfg Hrows).
Qed.

Lemma flake_without_surface_witness :
  (Snowflake.update CONFIG true unit_sin gust [shelf] shelf_map 10 10
     (add CONFIG empty10 5 3) low_flake).1
  = add CONFIG empty10 5 3.
Proof.
  apply flake_without_surface.
  - reflexivity.
  - vm_compute. reflexivity.
  - intros surfaceY H. vm_compute in H. injection H as <-. reflexivity.
Defined.

(** ** Rendering *)
















(** ** Conservation of snow *)

Lemma snowTotal_insert (v : Z) (b : list Z) :
  ∀ (n : nat) (old : Z), b !! n = Some old →
    (snowTotal (<[n := v]> b) + (if decide (old = Snow) then 1 else 0)
     = snowTotal b + (if decide (v = Snow) then 1 else 0))%nat.
Proof.
  unfold snowTotal. induction b as [|x b IH]; intros n old H; [done|].
  destruct n as [|n].
  - injection H as ->. cbn [insert list_insert]. rewrite !filter_cons.
    repeat case_decide; cbn [length]; lia.
  - cbn [insert list_insert]. specialize (IH n old H).
    rewrite !filter_cons. destruct (decide (x = Snow)); cbn [length].
    + rewrite !Nat.add_succ_l. f_equal. exact IH.
    + exact IH.
Qed.

Lemma snowTotal_wr (b : list Z) (i v old : Z) :
  rd b i = Some old →
  (snowTotal (wr b i v) + (if decide (old = Snow) then 1 else 0)
   = snowTotal b + (if decide (v = Snow) then 1 else 0))%nat.
Proof.
  unfold rd, wr. destruct (i <? 0); [done|]. apply snowTotal_insert.
Qed.

Lemma snowTotal_clear (b : list Z) (i : Z) :
  (snowTotal (wr b i Empty) ≤ snowTotal b)%nat.
Proof.
  destruct (rd b i) as [old|] eqn:H.
  - pose proof (snowTotal_wr b i Empty old H) as E.
    rewrite (decide_False (P := Empty = Snow)) in E by done. lia.
  - by rewrite wr_none.
Qed.

(** Moving a [Snow] cell never adds snow, wherever it is moved to. *)
Lemma snowTotal_move (b : list Z) (w r : Z) :
  rd b r = Some Snow →
  (snowTotal (wr (wr b w Snow) r Empty) ≤ snowTotal b)%nat.
Proof.
  intros Hr.
  destruct (rd b w) as [old|] eqn:Hw.
  - pose proof (snowTotal_wr b w Snow old Hw) as E1.
    pose proof (snowTotal_wr (wr b w Snow) r Empty Snow
                  (rd_wr_keep b w r Snow Hr)) as E2.
    rewrite (decide_True (P := Snow = Snow)) in E1, E2 by done.
    rewrite (decide_False (P := Empty = Snow)) in E2 by done. lia.
  - rewrite (wr_none b w Snow Hw).
    pose proof (snowTotal_wr b r Empty Snow Hr) as E.
    rewrite (decide_True (P := Snow = Snow)) in E by done.
    rewrite (decide_False (P := Empty = Snow)) in E by done. lia.
Qed.

Lemma cascade_loop_total (cols col : Z) (n : nat) :
  ∀ (b : list Z) (writeRow : Z),
    (snowTotal (cascade_loop cols col b writeRow n) ≤ snowTotal b)%nat.
Proof.
  induction n as [|m IH]; intros b writeRow; cbn [cascade_loop]; [done|].
  cbv zeta.
  destruct (is_val (rd b (Z.of_nat m * cols + col)) 1) eqn:E.
  - apply is_val_true in E. etrans; [apply IH|]. by apply snowTotal_move.
  - destruct (is_val _ 2); [done | apply IH].
Qed.

(** An invariant of a loop that depends on the elements gone through. *)
Lemma foldl_prefix {A B} (P : list B → A → Prop) (f : A → B → A)
    (l : list B) (a : A) :
  P [] a →
  (∀ pre b post a, l = pre ++ b :: post → P pre a → P (pre ++ [b]) (f a b)) →
  P l (foldl f a l).
Proof.
  induction l as [|x l IH] using rev_ind; intros Ha Hstep; [done|].
  rewrite foldl_app. cbn [foldl].
  apply (Hstep l x []); [done|].
  apply IH; [done|]. intros pre b post a' -> Hpre.
  apply (Hstep pre b (post ++ [x])); [|done].
  by rewrite <- app_assoc.
Qed.

Lemma no_new_snow_mono (current : list Z) (proc proc' : Z → Prop)
    (next : list Z) :
  (∀ i, proc i → proc' i) →
  no_new_snow current proc next → no_new_snow current proc' next.
Proof.
  intros Hsub [Ha Hb]. split; [|done].
  intros i Hi Hnp. apply Ha; [done|]. intros Hp. by apply Hnp, Hsub.
Qed.

Lemma process_cell_no_new_snow (cfg : Config) (random : nat → Q)
    (g : SnowPile) (done_rows : list Z) (row : Z) (done_cols : list Z)
    (s : Pass) (col : Z) :
  row ∉ done_rows → col ∉ done_cols → 0 ≤ col < colCount g →
  (∀ c, c ∈ done_cols → 0 ≤ c < colCount g) →
  no_new_snow (currentBuffer g)
    (processed (colCount g) done_rows row done_cols) (p_next s) →
  no_new_snow (currentBuffer g)
    (processed (colCount g) done_rows row (done_cols ++ [col]))
    (p_next (process_cell cfg random g row s col)).
Proof.
  intros Hrow Hcol Hc Hcols Hinv.
  assert (Hfresh : ¬ processed (colCount g) done_rows row done_cols
                       (row * colCount g + col)).
  { intros [(r & c & Hr & Hcr & E)|(c & Hin & E)].
    - apply idx_inj in E as [-> _]; done.
    - assert (c = col) by lia. by subst c. }
  assert (Hsub : ∀ i, processed (colCount g) done_rows row done_cols i →
                      processed (colCount g) done_rows row
                                (done_cols ++ [col]) i).
  { intros i [H|(c & Hin & E)]; [by left|right].
    exists c. split; [|done]. apply elem_of_app. by left. }
  assert (Hnow : processed (colCount g) done_rows row (done_cols ++ [col])
                           (row * colCount g + col)).
  { right. exists col. split; [|done]. apply elem_of_app. right.
    apply list_elem_of_here. }
  destruct (process_cell_stores cfg random g row s col)
    as (ws & _ & -> & [->|[(dst & -> & Hdst & Hsrc)|[-> Hsrc]]]).
  - by apply (no_new_snow_mono _ _ _ _ Hsub).
  - destruct Hinv as [Ha Hb]. unfold replay. cbn [foldl w_dst w_val].
    split.
    + intros i Hi Hnp.
      assert (i ≠ row * colCount g + col) by (by intros ->).
      assert (i ≠ dst) by (intros ->; rewrite Hdst in Hi; discriminate).
      rewrite !rd_wr_ne by done. apply Ha; [done|].
      intros Hp. by apply Hnp, Hsub.
    + etrans; [|exact Hb]. apply snowTotal_move. by apply Ha.
  - destruct Hinv as [Ha Hb]. unfold replay. cbn [foldl w_dst w_val].
    split.
    + intros i Hi Hnp.
      assert (i ≠ row * colCount g + col) by (by intros ->).
      rewrite !rd_wr_ne by done. apply Ha; [done|].
      intros Hp. by apply Hnp, Hsub.
    + etrans; [|exact Hb]. apply snowTotal_clear.
Qed.

Lemma physics_no_new_snow (cfg : Config) (random : nat → Q) (g : SnowPile) :
  (snowTotal (p_next (physics cfg random g))
   ≤ snowTotal (currentBuffer g))%nat.
Proof.
  unfold physics.
  refine (proj2 (foldl_prefix
    (λ pre s, no_new_snow (currentBuffer g)
                (processed (colCount g) pre 0 []) (p_next s))
    (process_row cfg random g) _ _ _ _)).
  - split; [by intros | done].
  - intros pre row post s Hl Hinv. unfold process_row.
    assert (Hrow : row ∉ pre).
    { assert (Hnd : NoDup (reverse (seqZ 0 (rowCount g - 1))))
        by (rewrite reverse_Permutation; apply NoDup_seqZ).
      rewrite Hl in Hnd. apply NoDup_app in Hnd as (_ & Hnd & _).
      intros Hin. apply (Hnd row Hin), list_elem_of_here. }
    destruct (isRowFull g row).
    + revert Hinv. apply no_new_snow_mono.
      intros i [(r & c & Hr & H)|(c & Hin & _)].
      * left. exists r, c. split; [|done]. apply elem_of_app. by left.
      * by apply elem_of_nil in Hin.
    + assert (Hinner : no_new_snow (currentBuffer g)
                (processed (colCount g) pre row (seqZ 0 (colCount g)))
                (p_next (foldl (process_cell cfg random g row) s
                               (seqZ 0 (colCount g))))).
      { apply (foldl_prefix
          (λ done_cols s', no_new_snow (currentBuffer g)
                             (processed (colCount g) pre row done_cols)
                             (p_next s'))).
        - revert Hinv. apply no_new_snow_mono.
          intros i [H|(c & Hin & _)]; [by left|].
          by apply elem_of_nil in Hin.
        - intros done_cols col post' s' Hl' Hs'.
          pose proof (NoDup_seqZ 0 (colCount g)) as Hnd.
          rewrite Hl' in Hnd. apply NoDup_app in Hnd as (_ & Hnd & _).
          assert (Hrange : ∀ c, c ∈ done_cols ++ col :: post' →
                                0 ≤ c < colCount g).
          { intros c Hin. rewrite <- Hl' in Hin. apply elem_of_seqZ in Hin.
            lia. }
          apply process_cell_no_new_snow; [done | | | | done].
          + intros Hin. apply (Hnd col Hin), list_elem_of_here.
          + apply Hrange, elem_of_app. right. apply list_elem_of_here.
          + intros c Hin. apply Hrange, elem_of_app. by left. }
      revert Hinner. apply no_new_snow_mono.
      intros i [(r & c & Hr & H)|(c & Hin & E)]; left.
      * exists r, c. split; [|done]. apply elem_of_app. by left.
      * exists row, c. split; [apply elem_of_app; right; apply list_elem_of_here|].
        apply elem_of_seqZ in Hin. split; [lia|done].
Qed.

Lemma update_snowTotal (cfg : Config) (random : nat → Q)
    (g : SnowPile) :
  (snowTotal (currentBuffer (update cfg random g))
   ≤ snowTotal (currentBuffer g))%nat.
Proof.
  assert (Hcasc : (snowTotal (settled cfg random g).1
                   ≤ snowTotal (currentBuffer g))%nat).
  { unfold settled, cascades. cbn [fst].
    apply (foldl_invariant
             (λ b, (snowTotal b ≤ snowTotal (currentBuffer g))%nat)).
    - apply physics_no_new_snow.
    - intros b gap _ Hb. etrans; [|exact Hb]. apply cascade_loop_total. }
  unfold update. cbn [currentBuffer].
  destruct (collectAtBottom cfg); [done|].
  unfold drain.
  apply (foldl_invariant
           (λ s : list Z * list Z,
              (snowTotal s.1 ≤ snowTotal (currentBuffer g))%nat)); [done|].
  intros s col _ Hs. unfold drain_cell.
  destruct (is_val _ 1); [|done]. cbn [fst].
  etrans; [|exact Hs]. apply snowTotal_clear.
Qed.

Lemma add_snowTotal (cfg : Config) (g : SnowPile) (col baseRow : Z) :
  (snowTotal (currentBuffer (add cfg g col baseRow))
   ≤ snowTotal (currentBuffer g) + 1)%nat.
Proof.
  destruct (add_result cfg g col baseRow) as [->|(r & _ & Hcell & ->)]; [lia|].
  cbn [set_counts setValueUnsafe set_current currentBuffer].
  pose proof (snowTotal_wr (currentBuffer g) (r * colCount g + col) Snow Empty
                Hcell) as E.
  rewrite (decide_True (P := Snow = Snow)) in E by done. lia.
Qed.

Lemma clearRow_snowTotal (g : SnowPile) (rowIndex : Z) :
  (snowTotal (currentBuffer (clearRow g rowIndex))
   ≤ snowTotal (currentBuffer g))%nat.
Proof.
  unfold clearRow.
  apply (foldl_invariant
           (λ a, (snowTotal (currentBuffer a)
                  ≤ snowTotal (currentBuffer g))%nat)); [done|].
  intros a col _ Ha. unfold clearRow_cell.
  destruct (is_val _ 1); [|done].
  cbn [set_counts setValueUnsafe set_current currentBuffer].
  etrans; [|exact Ha]. apply snowTotal_clear.
Qed.

Lemma clearAllSnow_snowTotal (g : SnowPile) :
  (snowTotal (currentBuffer (clearAllSnow g))
   ≤ snowTotal (currentBuffer g))%nat.
Proof.
  unfold clearAllSnow.
  apply (foldl_invariant
           (λ a, (snowTotal (currentBuffer a)
                  ≤ snowTotal (currentBuffer g))%nat)); [done|].
  intros a col _ Ha. unfold clearAll_col. cbv zeta.
  cbn [set_counts currentBuffer].
  apply (foldl_invariant
           (λ a, (snowTotal (currentBuffer a)
                  ≤ snowTotal (currentBuffer g))%nat)); [done|].
  intros a' row _ Ha'. unfold clearAll_cell.
  destruct (is_val _ 1); [|done].
  cbn [setValueUnsafe set_current currentBuffer].
  etrans; [|exact Ha']. apply snowTotal_clear.
Qed.

(** X22. Snow comes from [add] alone.  [update] never adds snow: whatever
    the configuration and the draws, the active buffer holds at most as
    many [Snow] cells after the call as before.  After any sequence of
    [add], [update], [clearRow] and [clearAllSnow] calls the number of
    [Snow] cells is at most the number at the start plus the number of
    [add] calls. *)
Theorem snow_only_from_add (cfg : Config) (g : SnowPile) :
  (∀ random, (snowTotal (currentBuffer (update cfg random g))
              ≤ snowTotal (currentBuffer g))%nat) ∧
  ∀ cs, (snowTotal (currentBuffer (calls cfg g cs))
         ≤ snowTotal (currentBuffer g) + adds cs)%nat.
Proof.
  split; [intros random; apply update_snowTotal|].
  intros cs. revert g. unfold calls.
  induction cs as [|c cs IH]; intros g; [cbn; lia|].
  cbn [foldl]. etrans; [apply IH|].
  unfold adds. rewrite filter_cons.
  destruct c as [col baseRow|random|rowIndex|]; cbn [call].
  - rewrite decide_True by done. cbn [length].
    pose proof (add_snowTotal cfg g col baseRow). lia.
  - rewrite decide_False by done.
    pose proof (update_snowTotal cfg random g). lia.
  - rewrite decide_False by done.
    pose proof (clearRow_snowTotal g rowIndex). lia.
  - rewrite decide_False by done.
    pose proof (clearAllSnow_snowTotal g). lia.
Qed.

(** ** The flake after an update *)

Lemma reset_in_canvas (canvasWidth r : Q) (f : Snowflake.t) :
  (0 <= canvasWidth)%Q → (0 <= r)%Q → (r < 1)%Q →
  (0 <= Snowflake.x (Snowflake.reset canvasWidth r f))%Q ∧
  (Snowflake.x (Snowflake.reset canvasWidth r f) <= canvasWidth)%Q.
Proof.
  intros Hw H0 H1. cbn [Snowflake.reset Snowflake.x]. split.
  - by apply Qmult_le_0_compat.
  - rewrite <- (Qmult_1_l canvasWidth) at 2.
    apply Qmult_le_compat_r; [by apply Qlt_le_weak | done].
Qed.

(** X23. After [update] a flake has either moved, keeping its wave, and is
    not below the bottom of the canvas, or has been reset: it is 10 pixels
    above the canvas, at an abscissa between 0 and [canvas.width] that is
    also its new wave centre.  In both cases [hit] is false and the angle,
    the velocity, the radius and the wave parameters are unchanged; when
    the bottom of the canvas is not above the reset line, the flake is
    never below the canvas after an update. *)
Theorem flake_moves_or_resets (cfg : Config) (hasPile : bool) (sin : Q → Q)
    (random : nat → Q) (surfacePositions : list Rect) (surfaceMap : list Q)
    (canvasWidth canvasHeight : Q) (pile : SnowPile) (f : Snowflake.t) :
  (0 <= canvasWidth)%Q →
  (∀ k, (0 <= random k)%Q ∧ (random k < 1)%Q) →
  let f' := (Snowflake.update cfg hasPile sin random surfacePositions
               surfaceMap canvasWidth canvasHeight pile f).2 in
  Snowflake.hit f' = false ∧
  (Snowflake.angle f', Snowflake.velocity f', Snowflake.radius f',
   Snowflake.amplitude f', Snowflake.frequency f', Snowflake.phase f')
  = (Snowflake.angle f, Snowflake.velocity f, Snowflake.radius f,
     Snowflake.amplitude f, Snowflake.frequency f, Snowflake.phase f) ∧
  ((Snowflake.x f' = Snowflake.x (Snowflake.move sin f) ∧
    Snowflake.y f' = Snowflake.y (Snowflake.move sin f) ∧
    Snowflake.baseX f' = Snowflake.baseX f ∧
    (Snowflake.y f' <= canvasHeight)%Q) ∨
   (Snowflake.y f' = (-10)%Q ∧
    Snowflake.baseX f' = Snowflake.x f' ∧
    (0 <= Snowflake.x f')%Q ∧ (Snowflake.x f' <= canvasWidth)%Q)) ∧
  ((-10 <= canvasHeight)%Q → (Snowflake.y f' <= canvasHeight)%Q).
Proof.
  intros Hw Hrandom f'. unfold f', Snowflake.update.
  set (m := Snowflake.move sin f).
  assert (Hreset : ∀ k,
    let f1 := Snowflake.reset canvasWidth (random k) m in
    Snowflake.hit f1 = false ∧
    (Snowflake.angle f1, Snowflake.velocity f1, Snowflake.radius f1,
     Snowflake.amplitude f1, Snowflake.frequency f1, Snowflake.phase f1)
    = (Snowflake.angle f, Snowflake.velocity f, Snowflake.radius f,
       Snowflake.amplitude f, Snowflake.frequency f, Snowflake.phase f) ∧
    ((Snowflake.x f1 = Snowflake.x m ∧ Snowflake.y f1 = Snowflake.y m ∧
      Snowflake.baseX f1 = Snowflake.baseX f ∧
      (Snowflake.y f1 <= canvasHeight)%Q) ∨
     (Snowflake.y f1 = (-10)%Q ∧ Snowflake.baseX f1 = Snowflake.x f1 ∧
      (0 <= Snowflake.x f1)%Q ∧ (Snowflake.x f1 <= canvasWidth)%Q)) ∧
    ((-10 <= canvasHeight)%Q → (Snowflake.y f1 <= canvasHeight)%Q)).
  { intros k f1. destruct (Hrandom k) as [H0 H1].
    destruct (reset_in_canvas canvasWidth (random k) m Hw H0 H1) as [Hx0 Hx1].
    split; [done|]. split; [done|]. split; [|done].
    right. by repeat split. }
  destruct (_ || _).
  - destruct hasPile; cbn [snd]; apply Hreset.
  - destruct (Qlt_bool canvasHeight (Snowflake.y m)) eqn:E;
      cbn [snd]; [apply Hreset|].
    assert (Hy : (Snowflake.y m <= canvasHeight)%Q).
    { apply Qnot_lt_le. intros Hlt. apply Qlt_bool_iff in Hlt. congruence. }
    cbn [Snowflake.hit Snowflake.angle Snowflake.velocity Snowflake.radius
         Snowflake.amplitude Snowflake.frequency Snowflake.phase
         Snowflake.x Snowflake.y Snowflake.baseX].
    split; [done|]. split; [done|]. split; [|done]. left. by repeat split.
Qed.

Lemma flake_moves_or_resets_witness :
  let f' := (Snowflake.update CONFIG true unit_sin gust [shelf] shelf_map
               10 10 (add CONFIG empty10 5 3) low_flake).2 in
  Snowflake.hit f' = false ∧
  (Snowflake.angle f', Snowflake.velocity f', Snowflake.radius f',
   Snowflake.amplitude f', Snowflake.frequency f', Snowflake.phase f')
  = (Snowflake.angle low_flake, Snowflake.velocity low_flake,
     Snowflake.radius low_flake, Snowflake.amplitude low_flake,
     Snowflake.frequency low_flake, Snowflake.phase low_flake) ∧
  ((Snowflake.x f' = Snowflake.x (Snowflake.move unit_sin low_flake) ∧
    Snowflake.y f' = Snowflake.y (Snowflake.move unit_sin low_flake) ∧
    Snowflake.baseX f' = Snowflake.baseX low_flake ∧
    (Snowflake.y f' <= 10)%Q) ∨
   (Snowflake.y f' = (-10)%Q ∧
    Snowflake.baseX f' = Snowflake.x f' ∧
    (0 <= Snowflake.x f')%Q ∧ (Snowflake.x f' <= 10)%Q)) ∧
  ((-10 <= 10)%Q → (Snowflake.y f' <= 10)%Q).
Proof.
  assert (Hw : (0 <= 10)%Q) by (vm_compute; discriminate).
  assert (Hr : ∀ k, (0 <= gust k)%Q ∧ (gust k < 1)%Q).
  { intros k. split; vm_compute; [discriminate | reflexivity]. }
  exact (flake_moves_or_resets CONFIG true unit_sin gust [shelf] shelf_map
           10 10 (add CONFIG empty10 5 3) low_flake Hw Hr).
Defined.

(** ** The surface map and the grid *)

(** X24. [resizeCanvas] computes the surface map and the grid from the
    same canvas size and the same surfaces.  The map then has one entry
    for each column of the grid, and with a positive cell size the row that
    [getCoords] gives for the entry of a column, which is the row a flake
    landing in that column is added from, is at or above every [Blocker] of
    the column: the search of [add] never starts under a surface of the
    column. *)
Theorem landing_row_above_blockers (cellSize : Q)
    (surfacePositions : list Rect) (w h : Q) (col row : Z) (surfaceY x : Q) :
  (0 < cellSize)%Q →
  let g := resize cellSize surfacePositions w h in
  length (calculateSurfaceMap cellSize w h surfacePositions)
  = Z.to_nat (colCount g) ∧
  (0 ≤ col →
   calculateSurfaceMap cellSize w h surfacePositions !! Z.to_nat col
   = Some surfaceY →
   getValue g col row = Some Blocker →
   (getCoords g x surfaceY).2 ≤ row).
Proof.
  intros Hcs g.
  destruct (resize_spec cellSize surfacePositions w h)
    as (Hw & Hcc & Hrc & _ & _ & _ & Hcells).
  fold g in Hw, Hcc, Hrc, Hcells.
  split.
  { unfold calculateSurfaceMap. by rewrite length_map, length_seqZ, Hcc. }
  intros Hcol Hmap Hblock.
  destruct (decide (0 ≤ col < colCount g ∧ 0 ≤ row < rowCount g))
    as [[Hc Hr]|Hout].
  2: { rewrite getValue_outside in Hblock by done. discriminate. }
  rewrite Hcc in Hc. rewrite Hrc in Hr.
  rewrite (Hcells col row Hc Hr) in Hblock.
  destruct (existsb _ surfacePositions) eqn:Hex; [|discriminate].
  apply existsb_exists in Hex as (s & Hin & Hcov).
  unfold covers in Hcov. rewrite !andb_true_iff, !Qle_bool_iff in Hcov.
  destruct Hcov as [[[Hl Hrt] Ht] Hb].
  unfold calculateSurfaceMap in Hmap.
  rewrite list_lookup_fmap, lookup_seqZ_lt in Hmap by lia.
  cbn [fmap option_fmap option_map] in Hmap. injection Hmap as Hmap.
  replace (0 + Z.of_nat (Z.to_nat col)) with col in Hmap by lia.
  destruct (column_top_spec (cell_centre cellSize col) surfacePositions h)
    as (_ & Hall & _).
  specialize (Hall s (proj2 (list_elem_of_In _ _) Hin) Hl Hrt).
  rewrite Hmap in Hall.
  assert (Hhalf : (0 < cellSize / 2)%Q).
  { apply Qlt_shift_div_l; [reflexivity|]. by rewrite Qmult_0_l. }
  assert (Hcentre : (cell_centre cellSize row
                     < inject_Z (row + 1) * cellSize)%Q).
  { assert (E : (inject_Z (row + 1) * cellSize
                 == cell_centre cellSize row + cellSize / 2)%Q).
    { unfold cell_centre. rewrite inject_Z_plus.
      change (inject_Z 1) with 1%Q. field. }
    rewrite E. rewrite <- (Qplus_0_r (cell_centre cellSize row)) at 1.
    by apply Qplus_lt_r. }
  assert (Hlt : (surfaceY / cellSize < inject_Z (row + 1))%Q).
  { apply Qlt_shift_div_r; [done|].
    eapply Qle_lt_trans; [exact Hall|].
    eapply Qle_lt_trans; [exact Ht | exact Hcentre]. }
  assert (Hfl : Qfloor (surfaceY / cellSize) < row + 1).
  { rewrite Zlt_Qlt. eapply Qle_lt_trans; [apply Qfloor_le | done]. }
  unfold getCoords. cbv zeta. cbn [snd]. rewrite Hw. lia.
Qed.

Lemma landing_row_above_blockers_witness :
  length (calculateSurfaceMap 1 10 10 [shelf])
  = Z.to_nat (colCount (resize 1 [shelf] 10 10)) ∧
  (getCoords (resize 1 [shelf] 10 10) (3 # 2) 8).2 ≤ 8.
Proof.
  assert (H : (0 < 1)%Q) by (vm_compute; reflexivity).
  assert (Hmap : calculateSurfaceMap 1 10 10 [shelf] !! Z.to_nat 1
                 = Some 8%Q) by (vm_compute; reflexivity).
  assert (Hblock : getValue (resize 1 [shelf] 10 10) 1 8 = Some Blocker)
    by (vm_compute; reflexivity).
  assert (Hcol : 0 ≤ 1) by lia.
  destruct (landing_row_above_blockers 1 [shelf] 10 10 1 8 8 (3 # 2) H)
    as [Hlen Hrow].
  split; [exact Hlen | exact (Hrow Hcol Hmap Hblock)].
Defined.
